(** * Legal-Tabular: extraction, citation ranking, normalisation and scoring

    A shallow embedding of [backend/src/services/field_extractor.py]
    ([FieldExtractor]) and of the comparison and similarity code of
    [backend/src/services/service_orchestrator.py].

    Modelling conventions.
    - Python values that flow through dictionaries ([field_def.get(...)],
      parsed JSON, chunk dictionaries) are the dynamic type [pyval].
    - Python exceptions are the [Err] branch of the [result] monad; a
      [try]/[except Exception] is a match on it.
    - Python floats are exact rationals [Q]; the claims are about the
      arithmetic, not about rounding.
    - Python [str] is [string] over ASCII; the [re] module is modelled by a
      small backtracking matcher ([Regex]) with Python's priorities (greedy
      and lazy repetition, ordered alternation, leftmost search). *)

From Stdlib Require Import Bool Arith Lia List String Ascii ZArith QArith.
From Stdlib Require Import Numbers.DecimalString Numbers.DecimalNat Sorting.Permutation Sorting.Sorted.
Import ListNotations.
Open Scope string_scope.
Open Scope nat_scope.

(** ** Python values and exceptions *)

#[local] Set Warnings "-register-all".

Inductive pyval : Type :=
| PNone
| PBool (b : bool)
| PNum (q : Q)
| PStr (s : string)
| PList (l : list pyval)
| PDict (d : list (string * pyval)).

(** The exceptions the modelled code can raise. *)
Inductive exn : Type :=
| AttributeError (msg : string)
| TypeError (msg : string).

Inductive result (A : Type) : Type :=
| Ok (a : A)
| Err (e : exn).
Arguments Ok {A} a.
Arguments Err {A} e.

Definition bind {A B} (m : result A) (f : A -> result B) : result B :=
  match m with Ok a => f a | Err e => Err e end.

Notation "x <- m ;; k" := (bind m (fun x => k))
  (at level 61, m at next level, right associativity).

(** Python truthiness. *)
Definition truthy (v : pyval) : bool :=
  match v with
  | PNone => false
  | PBool b => b
  | PNum q => negb (Qeq_bool q 0)
  | PStr s => negb (String.eqb s "")
  | PList l => negb (Nat.eqb (List.length l) 0)
  | PDict d => negb (Nat.eqb (List.length d) 0)
  end.

(** [a or b] *)
Definition py_or (a b : pyval) : pyval := if truthy a then a else b.

(** [d.get(key, default)] on a dictionary. *)
Fixpoint dict_get (d : list (string * pyval)) (key : string) (default : pyval)
  : pyval :=
  match d with
  | [] => default
  | (k, v) :: d' => if String.eqb k key then v else dict_get d' key default
  end.

(** [x.get(key, default)]: only dictionaries have a [get] method. *)
Definition py_get (x : pyval) (key : string) (default : pyval) : result pyval :=
  match x with
  | PDict d => Ok (dict_get d key default)
  | _ => Err (AttributeError "object has no attribute 'get'")
  end.

(** [min(a, b)] returns [a] unless [b < a]. *)
Definition py_min (a b : Q) : Q := if Qle_bool a b then a else b.

(** A Python number ([bool] is a subclass of [int]). *)
Definition as_number (v : pyval) : option Q :=
  match v with
  | PNum q => Some q
  | PBool b => Some (if b then 1 else 0)%Q
  | _ => None
  end.

(** ** Python [str] operations *)

Module PyStr.

(** [str.isspace] on ASCII: \t \n \v \f \r, \x1c-\x1f and the space. *)
Definition is_space (c : ascii) : bool :=
  let n := nat_of_ascii c in
  ((9 <=? n) && (n <=? 13)) || ((28 <=? n) && (n <=? 32)).

Definition is_digit (c : ascii) : bool :=
  let n := nat_of_ascii c in (48 <=? n) && (n <=? 57).

Definition is_upper (c : ascii) : bool :=
  let n := nat_of_ascii c in (65 <=? n) && (n <=? 90).

Definition is_lower (c : ascii) : bool :=
  let n := nat_of_ascii c in (97 <=? n) && (n <=? 122).

Definition lower_char (c : ascii) : ascii :=
  if is_upper c then ascii_of_nat (nat_of_ascii c + 32) else c.

Definition upper_char (c : ascii) : ascii :=
  if is_lower c then ascii_of_nat (nat_of_ascii c - 32) else c.

Definition chars (s : string) : list ascii := list_ascii_of_string s.
Definition of_chars (l : list ascii) : string := string_of_list_ascii l.

Definition lower (s : string) : string := of_chars (map lower_char (chars s)).

Fixpoint drop_space (l : list ascii) : list ascii :=
  match l with
  | c :: l' => if is_space c then drop_space l' else l
  | [] => []
  end.

(** [str.strip()] *)
Definition strip (s : string) : string :=
  of_chars (rev (drop_space (rev (drop_space (chars s))))).

(** [str.split()]: maximal runs of non-space characters. *)
Fixpoint split_acc (l : list ascii) (cur : list ascii) : list string :=
  match l with
  | [] => match cur with [] => [] | _ => [of_chars (rev cur)] end
  | c :: l' =>
      if is_space c then
        match cur with
        | [] => split_acc l' []
        | _ => of_chars (rev cur) :: split_acc l' []
        end
      else split_acc l' (c :: cur)
  end.

Definition split (s : string) : list string := split_acc (chars s) [].

(** [s[a:b]] for [0 <= a], [0 <= b]. *)
Definition slice (s : string) (a b : nat) : string :=
  of_chars (firstn (b - a) (skipn a (chars s))).

Fixpoint is_prefix (p l : list ascii) : bool :=
  match p, l with
  | [], _ => true
  | c :: p', d :: l' => Ascii.eqb c d && is_prefix p' l'
  | _ :: _, [] => false
  end.

Fixpoint occurs (p l : list ascii) : bool :=
  is_prefix p l || match l with [] => false | _ :: l' => occurs p l' end.

(** [p in s] *)
Definition contains (s p : string) : bool := occurs (chars p) (chars s).

(** [sep.join(l)] *)
Fixpoint join (sep : string) (l : list string) : string :=
  match l with
  | [] => ""
  | [x] => x
  | x :: l' => x ++ sep ++ join sep l'
  end.

(** [str.capitalize()] *)
Definition capitalize (s : string) : string :=
  match chars s with
  | [] => ""
  | c :: l => of_chars (upper_char c :: map lower_char l)
  end.

(** [s.replace(',', '')] *)
Definition remove_commas (s : string) : string :=
  of_chars (filter (fun c => negb (Ascii.eqb c ",")) (chars s)).

(** [f"{s:0>2}"]: pad on the left with zeros to width 2. *)
Definition zpad2 (s : string) : string :=
  match String.length s with
  | 0 => "00"
  | 1 => "0" ++ s
  | _ => s
  end.

(** [str(i)] for a list index. *)
Definition of_nat (n : nat) : string := NilEmpty.string_of_uint (Nat.to_uint n).

End PyStr.

(** ** The [re] module: a backtracking matcher *)

Module Regex.
Import PyStr.

(** Regular expressions of the shapes used in the source: character
    classes, sequences, ordered alternation, bounded repetition (greedy or
    lazy), capturing groups numbered as Python numbers them, and the empty
    expression (a non-capturing group is plain structure). *)
Inductive regex : Type :=
| RClass (p : ascii -> bool)
| RSeq (r1 r2 : regex)
| RAlt (r1 r2 : regex)
| RRep (greedy : bool) (lo : nat) (hi : option nat) (r : regex)
| RGroup (n : nat) (r : regex)
| REps.

(** Captured spans, most recent first. *)
Definition caps := list (nat * (nat * nat)).

(** With [re.IGNORECASE] a character matches a class when it, its lower
    case or its upper case form does. *)
Definition class_match (icase : bool) (p : ascii -> bool) (c : ascii) : bool :=
  p c || (icase && (p (lower_char c) || p (upper_char c))).

(** [mtch icase s r i cs k]: match [r] on [s] from position [i], then run
    the continuation [k] on the end position; backtrack into [r] when [k]
    fails, trying alternatives in Python's priority order. A repetition
    stops iterating on an iteration that consumed nothing once its minimum
    count is reached. *)
Fixpoint mtch (icase : bool) (s : list ascii) (r : regex) (i : nat) (cs : caps)
  (k : nat -> caps -> option (nat * caps)) {struct r} : option (nat * caps) :=
  match r with
  | REps => k i cs
  | RClass p =>
      match nth_error s i with
      | Some c => if class_match icase p c then k (S i) cs else None
      | None => None
      end
  | RSeq r1 r2 => mtch icase s r1 i cs (fun j cs' => mtch icase s r2 j cs' k)
  | RAlt r1 r2 =>
      match mtch icase s r1 i cs k with
      | Some x => Some x
      | None => mtch icase s r2 i cs k
      end
  | RGroup n r1 => mtch icase s r1 i cs (fun j cs' => k j ((n, (i, j)) :: cs'))
  | RRep greedy lo hi r1 =>
      let fix rep (fuel n i : nat) (cs : caps) : option (nat * caps) :=
        match fuel with
        | O => None
        | S f =>
            if n <? lo then
              mtch icase s r1 i cs (fun j cs' => rep f (S n) j cs')
            else if match hi with Some h => h <=? n | None => false end then
              k i cs
            else if greedy then
              match mtch icase s r1 i cs
                      (fun j cs' => if j =? i then None else rep f (S n) j cs')
              with
              | Some x => Some x
              | None => k i cs
              end
            else
              match k i cs with
              | Some x => Some x
              | None =>
                  mtch icase s r1 i cs
                    (fun j cs' => if j =? i then None else rep f (S n) j cs')
              end
        end
      in rep (S (lo + List.length s)) 0 i cs
  end.

Record match_obj := { m_start : nat; m_end : nat; m_caps : caps }.

Definition match_at (icase : bool) (r : regex) (s : list ascii) (i : nat)
  : option match_obj :=
  match mtch icase s r i [] (fun j cs => Some (j, cs)) with
  | Some (j, cs) => Some {| m_start := i; m_end := j; m_caps := cs |}
  | None => None
  end.

Fixpoint search_from (icase : bool) (r : regex) (s : list ascii) (i fuel : nat)
  : option match_obj :=
  match fuel with
  | O => None
  | S f =>
      match match_at icase r s i with
      | Some m => Some m
      | None => search_from icase r s (S i) f
      end
  end.

(** [re.search(pattern, text, flags)]; it is also the first match of
    [re.finditer]. *)
Definition search (icase : bool) (r : regex) (text : string) : option match_obj :=
  search_from icase r (chars text) 0 (S (String.length text)).

(** [re.match]: anchored at position 0. *)
Definition rmatch (icase : bool) (r : regex) (text : string) : option match_obj :=
  match_at icase r (chars text) 0.

(** Number of capturing groups ([len(match.groups())]). *)
Fixpoint groups (r : regex) : nat :=
  match r with
  | RClass _ | REps => 0
  | RSeq r1 r2 | RAlt r1 r2 => groups r1 + groups r2
  | RRep _ _ _ r1 => groups r1
  | RGroup _ r1 => S (groups r1)
  end.

Fixpoint cap_lookup (cs : caps) (n : nat) : option (nat * nat) :=
  match cs with
  | [] => None
  | (m, sp) :: cs' => if m =? n then Some sp else cap_lookup cs' n
  end.

(** [match.group(n)]: [None] for a group that did not participate. *)
Definition group (text : string) (m : match_obj) (n : nat) : option string :=
  match n with
  | O => Some (slice text (m_start m) (m_end m))
  | _ =>
      match cap_lookup (m_caps m) n with
      | Some (a, b) => Some (slice text a b)
      | None => None
      end
  end.

(** Pattern syntax. *)
Definition chr (c : ascii) : regex := RClass (fun d => Ascii.eqb c d).
Fixpoint lit_l (l : list ascii) : regex :=
  match l with [] => REps | [c] => chr c | c :: l' => RSeq (chr c) (lit_l l') end.
(** A literal, also [re.escape(s)]. *)
Definition lit (s : string) : regex := lit_l (chars s).
Fixpoint seq (l : list regex) : regex :=
  match l with [] => REps | [r] => r | r :: l' => RSeq r (seq l') end.
Fixpoint alts (l : list regex) : regex :=
  match l with [] => REps | [r] => r | r :: l' => RAlt r (alts l') end.
Definition cls (p : ascii -> bool) : regex := RClass p.
Definition digit : regex := RClass is_digit.              (* \d *)
Definition space : regex := RClass is_space.              (* \s *)
Definition rng (lo hi : ascii) (c : ascii) : bool :=
  (nat_of_ascii lo <=? nat_of_ascii c) && (nat_of_ascii c <=? nat_of_ascii hi).
Definition among (s : string) (c : ascii) : bool :=
  existsb (Ascii.eqb c) (chars s).
Definition plus (r : regex) : regex := RRep true 1 None r.        (* r+  *)
Definition plus_lazy (r : regex) : regex := RRep false 1 None r.  (* r+? *)
Definition star (r : regex) : regex := RRep true 0 None r.        (* r*  *)
Definition opt (r : regex) : regex := RRep true 0 (Some 1) r.     (* r?  *)
Definition count (lo hi : nat) (r : regex) : regex :=
  RRep true lo (Some hi) r.                                       (* r{lo,hi} *)

End Regex.

(** ** [FieldExtractor] *)

Module FieldExtractor.
Import PyStr Regex.

(** [v == s] for a string literal [s]. *)
Definition is_str (v : pyval) (s : string) : bool :=
  match v with PStr t => String.eqb t s | _ => false end.

(** *** [_get_patterns_for_field] *)

Definition letters (c : ascii) : bool := rng "A" "Z" c || rng "a" "z" c.
Definition alnum (c : ascii) : bool := letters c || is_digit c.
Definition colon_space : regex := cls (fun c => among ":" c || is_space c).

Definition months : list string :=
  ["January"; "February"; "March"; "April"; "May"; "June"; "July";
   "August"; "September"; "October"; "November"; "December"].

(* r'(\d{1,2}/\d{1,2}/\d{4})' *)
Definition date_slash : regex :=
  RGroup 1 (seq [count 1 2 digit; lit "/"; count 1 2 digit; lit "/"; count 4 4 digit]).
(* r'(\d{4}-\d{2}-\d{2})' *)
Definition date_iso : regex :=
  RGroup 1 (seq [count 4 4 digit; lit "-"; count 2 2 digit; lit "-"; count 2 2 digit]).
(* r'(January|...|December)\s+\d{1,2},?\s+\d{4}' *)
Definition date_month : regex :=
  seq [RGroup 1 (alts (map lit months)); plus space; count 1 2 digit;
       opt (lit ","); plus space; count 4 4 digit].

(* r'(?:Between|BETWEEN|between)\s+([A-Z][A-Za-z\s&.,]+?)\s+(?:and|AND)' *)
Definition party_between : regex :=
  seq [alts [lit "Between"; lit "BETWEEN"; lit "between"]; plus space;
       RGroup 1 (seq [cls (rng "A" "Z");
                      plus_lazy (cls (fun c => letters c || is_space c || among "&.," c))]);
       plus space; alts [lit "and"; lit "AND"]].
(* r'(?:Party|PARTY):\s*([A-Z][A-Za-z\s&.,]+?)(?:\n|;)' *)
Definition party_label : regex :=
  seq [alts [lit "Party"; lit "PARTY"]; lit ":"; star space;
       RGroup 1 (seq [cls (rng "A" "Z");
                      plus_lazy (cls (fun c => letters c || is_space c || among "&.," c))]);
       alts [chr (ascii_of_nat 10); lit ";"]].

Definition date_chars (c : ascii) : bool := alnum c || is_space c || among ",./-" c.
(* r'(?:effective|Effective|EFFECTIVE)(?:\s+date)?[:\s]+([A-Za-z0-9\s,./\-]+?)(?:[,;]|and|on)' *)
Definition effective_pat : regex :=
  seq [alts [lit "effective"; lit "Effective"; lit "EFFECTIVE"];
       opt (seq [plus space; lit "date"]); plus colon_space;
       RGroup 1 (plus_lazy (cls date_chars));
       alts [cls (among ",;"); lit "and"; lit "on"]].
(* r'(?:term|Term|TERM)[:\s]+([A-Za-z0-9\s,./\-]+?)(?:[,;]|and|\n)' *)
Definition term_pat : regex :=
  seq [alts [lit "term"; lit "Term"; lit "TERM"]; plus colon_space;
       RGroup 1 (plus_lazy (cls date_chars));
       alts [cls (among ",;"); lit "and"; chr (ascii_of_nat 10)]].

(* r'\$[\d,]+\.?\d*' *)
Definition dollar_pat : regex :=
  seq [lit "$"; plus (cls (fun c => is_digit c || among "," c)); opt (lit "."); star digit].
(* r'(USD|EUR|GBP)[\s]*[\d,]+\.?\d*' *)
Definition iso_currency_pat : regex :=
  seq [RGroup 1 (alts [lit "USD"; lit "EUR"; lit "GBP"]); star space;
       plus (cls (fun c => is_digit c || among "," c)); opt (lit "."); star digit].

Definition clause_chars (c : ascii) : bool := alnum c || is_space c || among ",-$().%" c.
(* r'(?:liability|Liability|LIABLE)[:\s]+([A-Za-z0-9\s,\-$().%]+?)(?:[.;]|and|as)' *)
Definition liability_pat : regex :=
  seq [alts [lit "liability"; lit "Liability"; lit "LIABLE"]; plus colon_space;
       RGroup 1 (plus_lazy (cls clause_chars));
       alts [cls (among ".;"); lit "and"; lit "as"]].

(* r'(?:' + re.escape(field_name) + r')[:\s]+([A-Za-z0-9\s,\-$().%]+?)(?:[.;]|and)' *)
Definition generic_pat (field_name : string) : regex :=
  seq [lit field_name; plus colon_space; RGroup 1 (plus_lazy (cls clause_chars));
       alts [cls (among ".;"); lit "and"]].

Definition _get_patterns_for_field (field_name field_type : pyval)
  : result (list (regex * Q)) :=
  match field_name with
  | PStr name =>
      let field_name_lower := lower name in
      let has w := contains field_name_lower w in
      let patterns :=
        if has "date" || is_str field_type "DATE" then
          [(date_slash, 3#10); (date_iso, 3#10); (date_month, 4#10)]
        else if has "party" || has "parties" then
          [(party_between, 3#10); (party_label, 4#10)]
        else if has "effective" || has "term" then
          [(effective_pat, 3#10); (term_pat, 3#10)]
        else if has "currency" || has "amount" || is_str field_type "CURRENCY" then
          [(dollar_pat, 4#10); (iso_currency_pat, 3#10)]
        else if has "liable" || has "liability" then
          [(liability_pat, 3#10)]
        else [] in
      Ok (patterns ++ [(generic_pat name, 2#10)])%list
  | _ => Err (AttributeError "object has no attribute 'lower'")
  end.

(** *** Strategy results: [{'value', 'raw_text', 'confidence'}] *)

Record raw_result := {
  rr_value : pyval;
  rr_raw_text : pyval;
  rr_confidence : Q
}.

Definition no_result : raw_result :=
  {| rr_value := PNone; rr_raw_text := PNone; rr_confidence := 0 |}.

(** *** [_extract_with_heuristics] *)

(** The [for pattern, confidence_boost in patterns] loop; [re.finditer]'s
    first match is [re.search]'s match, and the loop returns on it. *)
Fixpoint heuristic_loop (document_text : string) (patterns : list (regex * Q))
  : result raw_result :=
  match patterns with
  | [] => Ok no_result
  | (pattern, confidence_boost) :: rest =>
      match search true pattern document_text with
      | None => heuristic_loop document_text rest
      | Some m =>
          match group document_text m (if 0 <? groups pattern then 1 else 0) with
          | None => Err (AttributeError "'NoneType' object has no attribute 'strip'")
          | Some extracted_value =>
              let start := m_start m - 100 in
              let end_ := Nat.min (String.length document_text) (m_end m + 100) in
              let context := slice document_text start end_ in
              let confidence := py_min 1 ((6#10) + confidence_boost)%Q in
              Ok {| rr_value := PStr (strip extracted_value);
                    rr_raw_text := PStr (strip context);
                    rr_confidence := confidence |}
          end
      end
  end.

Definition _extract_with_heuristics (document_text : string) (field_name field_type : pyval)
  : result raw_result :=
  patterns <- _get_patterns_for_field field_name field_type ;;
  heuristic_loop document_text patterns.

(** *** [_extract_with_llm] *)

(** The generative backend: [Some v] is [json.loads(llm_client.complete(prompt))]
    for the prompt built from the document text, field name, field type and
    description; [None] is a failure of [complete] or of [json.loads].
    Numbers are finite floats, modelled as rationals: the infinities and
    NaN that [json.loads] also produces (from [-1e400], [-Infinity] or
    [NaN]) are not represented. *)
Definition llm_client := string -> pyval -> pyval -> pyval -> option pyval.

Definition _extract_with_llm (client : llm_client) (document_text : string)
  (field_name field_type description : pyval) : result raw_result :=
  match client document_text field_name field_type description with
  | Some (PDict d) =>
      match as_number (dict_get d "confidence" (PNum 0)) with
      | Some c =>
          Ok {| rr_value := dict_get d "value" PNone;
                rr_raw_text := dict_get d "raw_text" PNone;
                rr_confidence := py_min 1 c |}
      | None => Ok no_result      (* min(1.0, <non-number>): TypeError, caught *)
      end
  | Some _ => Ok no_result        (* result.get on a non-dict: caught *)
  | None => Ok no_result
  end.

(** *** [_find_citations] *)

Record citation := {
  citation_text : string;
  page_number : pyval;
  section_title : pyval;
  relevance_score : Q;
  chunk_id : string
}.

(** An entry of [scored_chunks]. *)
Record scored_chunk := {
  sc_text : string;
  sc_similarity : Q;
  sc_page : pyval;
  sc_section : pyval;
  sc_chunk_id : string
}.

(** [set(s.lower().split())] *)
Definition token_set (s : string) : list string :=
  nodup string_dec (split (lower s)).

(** [len(A & B)] and [len(A | B)] of two token sets. *)
Definition inter_size (a b : list string) : nat :=
  List.length (filter (fun t => if in_dec string_dec t b then true else false) a).
Definition union_size (a b : list string) : nat :=
  List.length (nodup string_dec (a ++ b)).

(** The body of the [for i, chunk in enumerate(document_chunks)] loop. *)
Definition score_chunk (query_text : string) (i : nat) (chunk : pyval)
  : result scored_chunk :=
  t <- py_get chunk "text" (PStr "") ;;
  match t with
  | PStr chunk_text =>
      let query_tokens := token_set query_text in
      let chunk_tokens := token_set chunk_text in
      let intersection := inter_size query_tokens chunk_tokens in
      let union := union_size query_tokens chunk_tokens in
      let similarity :=
        if 0 <? union then (inject_Z (Z.of_nat intersection) / inject_Z (Z.of_nat union))%Q
        else 0%Q in
      let similarity :=
        if contains (lower chunk_text) (lower query_text)
        then py_min 1 (similarity + (3#10))%Q else similarity in
      page <- py_get chunk "page_number" (PNum 1) ;;
      section <- py_get chunk "section" (PStr "Main") ;;
      Ok {| sc_text := chunk_text; sc_similarity := similarity; sc_page := page;
            sc_section := section; sc_chunk_id := of_nat i |}
  | _ => Err (AttributeError "object has no attribute 'lower'")
  end.

Fixpoint score_chunks (query_text : string) (i : nat) (chunks : list pyval)
  : result (list scored_chunk) :=
  match chunks with
  | [] => Ok []
  | c :: cs =>
      sc <- score_chunk query_text i c ;;
      rest <- score_chunks query_text (S i) cs ;;
      Ok (sc :: rest)
  end.

(** [scored_chunks.sort(key=lambda x: x['similarity'], reverse=True)]: a
    stable sort, descending; an element goes after the ones whose key is at
    least its own. *)
Fixpoint insert_desc (x : scored_chunk) (l : list scored_chunk) : list scored_chunk :=
  match l with
  | [] => [x]
  | y :: l' =>
      if Qle_bool (sc_similarity x) (sc_similarity y) then y :: insert_desc x l'
      else x :: l
  end.

Definition sort_desc (l : list scored_chunk) : list scored_chunk :=
  fold_left (fun acc x => insert_desc x acc) l [].

(** [l[:k]] *)
Definition take_prefix {A} (l : list A) (k : Z) : list A :=
  if (0 <=? k)%Z then firstn (Z.to_nat k) l
  else firstn (Z.to_nat (Z.of_nat (List.length l) + k)) l.

Definition to_citation (c : scored_chunk) : citation :=
  {| citation_text := slice (sc_text c) 0 500;
     page_number := sc_page c;
     section_title := sc_section c;
     relevance_score := sc_similarity c;
     chunk_id := sc_chunk_id c |}.

Definition _find_citations (query_text : pyval) (document_chunks : list pyval)
  (top_k : Z) : result (list citation) :=
  if negb (truthy query_text) then Ok []
  else
    match query_text with
    | PStr q =>
        scored_chunks <- score_chunks q 0 document_chunks ;;
        let ranked := take_prefix (sort_desc scored_chunks) top_k in
        Ok (map to_citation
              (filter (fun c => negb (Qle_bool (sc_similarity c) 0)) ranked))
    | _ => Err (AttributeError "object has no attribute 'lower'")
    end.

(** *** [_normalize_value] *)

(* r'(\d{1,2})/(\d{1,2})/(\d{4})' *)
Definition norm_slash : regex :=
  seq [RGroup 1 (count 1 2 digit); lit "/"; RGroup 2 (count 1 2 digit); lit "/";
       RGroup 3 (count 4 4 digit)].
(* r'(\d{4})-(\d{2})-(\d{2})' *)
Definition norm_iso : regex :=
  seq [RGroup 1 (count 4 4 digit); lit "-"; RGroup 2 (count 2 2 digit); lit "-";
       RGroup 3 (count 2 2 digit)].
(* \$?( [\d,]+ \.? \d* ), that is r'\$?([\d,]+\.?\d*' followed by the closing paren *)
Definition norm_currency : regex :=
  seq [opt (lit "$");
       RGroup 1 (seq [plus (cls (fun c => is_digit c || among "," c)); opt (lit "."); star digit])].

(** Formatting a group that did not participate ([None]) raises. *)
Definition need (g : option string) : result string :=
  match g with
  | Some s => Ok s
  | None => Err (TypeError "unsupported format string passed to NoneType.__format__")
  end.

(** As written, the first DATE lambda (field_extractor.py, line 313) opens
    its f-string with a double quote and closes it with a single quote: the
    string is unterminated, so the module raises SyntaxError when it is
    imported and none of its code runs.  The model reads the line as
    intended, with the closing double quote, so that the rest of the
    extraction pipeline can be studied as if the module loaded. *)
Definition _normalize_value (value field_type : pyval) : result pyval :=
  if negb (truthy value) then Ok PNone
  else
    match value with
    | PStr v =>
        let value := strip v in
        if is_str field_type "DATE" then
          match search false norm_slash value with
          | Some m =>
              g1 <- need (group value m 1) ;;
              g2 <- need (group value m 2) ;;
              g3 <- need (group value m 3) ;;
              Ok (PStr (g3 ++ "-" ++ zpad2 g1 ++ "-" ++ zpad2 g2))
          | None =>
              match search false norm_iso value with
              | Some m => g0 <- need (group value m 0) ;; Ok (PStr g0)
              | None => Ok (PStr value)
              end
          end
        else if is_str field_type "CURRENCY" then
          match search false norm_currency value with
          | Some m => g1 <- need (group value m 1) ;; Ok (PStr ("USD " ++ remove_commas g1))
          | None => Ok (PStr value)
          end
        else if is_str field_type "BOOLEAN" then
          let value_lower := lower value in
          if existsb (contains value_lower) ["yes"; "true"; "agreed"; "confirmed"]
          then Ok (PStr "true")
          else if existsb (contains value_lower) ["no"; "false"; "denied"; "rejected"]
          then Ok (PStr "false")
          else Ok (PStr value)
        else if is_str field_type "ENTITY" then
          Ok (PStr (join " " (map capitalize (split value))))
        else Ok (PStr value)
    | _ => Err (AttributeError "object has no attribute 'strip'")
    end.

(** *** [_validate_extraction] *)

(* r'\d{4}-\d{2}-\d{2}' *)
Definition iso_shape : regex :=
  seq [count 4 4 digit; lit "-"; count 2 2 digit; lit "-"; count 2 2 digit].
(* r'[\d,]+\.?\d*' *)
Definition number_run : regex :=
  seq [plus (cls (fun c => is_digit c || among "," c)); opt (lit "."); star digit].

Definition _validate_extraction (extracted_value normalized_value field_type : pyval)
  : result Q :=
  if negb (truthy extracted_value) then Ok 0%Q
  else if negb (truthy normalized_value) then Ok (1#2)
  else if is_str field_type "DATE" then
    match normalized_value with
    | PStr nv => Ok (if rmatch false iso_shape nv then 1%Q else 6#10)
    | _ => Err (TypeError "expected string or bytes-like object")
    end
  else if is_str field_type "CURRENCY" then
    match normalized_value with
    | PStr nv =>
        Ok (if contains nv "USD" && (if search false number_run nv then true else false)
            then 1%Q else 6#10)
    | _ => Err (TypeError "argument of type is not iterable")
    end
  else if is_str field_type "BOOLEAN" then
    Ok (if is_str normalized_value "true" || is_str normalized_value "false"
        then 1%Q else 1#2)
  else Ok (8#10).

(** *** [_extract_single_field] and [extract_fields] *)

Record extraction_record := {
  field_name : pyval;
  field_type : pyval;
  extracted_value : pyval;
  raw_text : pyval;
  normalized_value : pyval;
  confidence_score : Q;
  citations : list citation;
  method : option string;      (* [extraction_metadata['method']]; absent on errors *)
  error : option exn           (* the ['error'] key; absent on success *)
}.

(** The extractor instance: [self.llm_client] is [None] or a client. *)
Definition extractor := option llm_client.

(** The body of the [try] block. *)
Definition extract_single_field_body (self : extractor) (document_text : string)
  (document_chunks : list pyval) (field_name field_type description : pyval)
  : result extraction_record :=
  extraction_result <-
    match self with
    | Some client => _extract_with_llm client document_text field_name field_type description
    | None => _extract_with_heuristics document_text field_name field_type
    end ;;
  let extracted_value := rr_value extraction_result in
  let raw_text := rr_raw_text extraction_result in
  let confidence := rr_confidence extraction_result in
  citations <- _find_citations (py_or raw_text extracted_value) document_chunks 3 ;;
  normalized_value <- _normalize_value extracted_value field_type ;;
  validation_score <- _validate_extraction extracted_value normalized_value field_type ;;
  let final_confidence := py_min 1 (confidence * validation_score)%Q in
  Ok {| field_name := field_name;
        field_type := field_type;
        extracted_value := extracted_value;
        raw_text := raw_text;
        normalized_value := normalized_value;
        confidence_score := final_confidence;
        citations := citations;
        method := Some (match self with Some _ => "llm" | None => "heuristic" end);
        error := None |}.

Definition error_record (field_name field_type : pyval) (e : exn) : extraction_record :=
  {| field_name := field_name;
     field_type := field_type;
     extracted_value := PNone;
     raw_text := PNone;
     normalized_value := PNone;
     confidence_score := 0;
     citations := [];
     method := None;
     error := Some e |}.

(** [try: ... except Exception as e: return {..., 'error': str(e)}] *)
Definition _extract_single_field (self : extractor) (document_text : string)
  (document_chunks : list pyval) (field_name field_type description : pyval)
  : extraction_record :=
  match extract_single_field_body self document_text document_chunks
          field_name field_type description with
  | Ok r => r
  | Err e => error_record field_name field_type e
  end.

(** [extract_fields]: the [field_def.get(...)] reads are outside the
    per-field [try]. *)
Fixpoint extract_fields (self : extractor) (document_text : string)
  (document_chunks : list pyval) (field_definitions : list pyval)
  : result (list extraction_record) :=
  match field_definitions with
  | [] => Ok []
  | field_def :: rest =>
      field_name <- py_get field_def "name" (PStr "") ;;
      field_type <- py_get field_def "field_type" (PStr "TEXT") ;;
      description <- py_get field_def "description" (PStr "") ;;
      let extraction := _extract_single_field self document_text document_chunks
                          field_name field_type description in
      results <- extract_fields self document_text document_chunks rest ;;
      Ok (extraction :: results)
  end.

End FieldExtractor.

(** ** [difflib.SequenceMatcher(None, a, b).ratio()] *)

Module SequenceMatcher.

Section Matcher.
Variables a b : list ascii.

Definition at_ (l : list ascii) (i : nat) : ascii := nth i l " "%char.

(** [isjunk] is [None], so [bjunk] is empty. *)
Definition isbjunk (c : ascii) : bool := false.

(** [b2j[elt]]: the positions of [elt] in [b], ascending; with [autojunk]
    and [len(b) >= 200] the elements occurring more than [n // 100 + 1]
    times ("popular") are removed. *)
Definition b2j_get (c : ascii) : list nat :=
  let n := List.length b in
  let idxs := filter (fun j => Ascii.eqb (at_ b j) c) (seq 0 n) in
  if (200 <=? n) && (n / 100 + 1 <? List.length idxs) then [] else idxs.

Fixpoint j2len_get (j2len : list (nat * nat)) (j : nat) : nat :=
  match j2len with
  | [] => 0
  | (j', k) :: l => if j' =? j then k else j2len_get l j
  end.

(** The inner [for j in b2j.get(a[i], nothing)] loop of
    [find_longest_match]; [best] is [(besti, bestj, bestsize)]. *)
Fixpoint inner_loop (blo bhi i : nat) (js : list nat) (j2len newj2len : list (nat * nat))
  (best : nat * nat * nat) : list (nat * nat) * (nat * nat * nat) :=
  match js with
  | [] => (newj2len, best)
  | j :: js' =>
      if j <? blo then inner_loop blo bhi i js' j2len newj2len best
      else if bhi <=? j then (newj2len, best)
      else
        let k := match j with O => 0 | S j1 => j2len_get j2len j1 end + 1 in
        let '(_, _, bestsize) := best in
        let best' := if bestsize <? k then (i + 1 - k, j + 1 - k, k) else best in
        inner_loop blo bhi i js' j2len ((j, k) :: newj2len) best'
  end.

Fixpoint outer_loop (blo bhi : nat) (is : list nat) (j2len : list (nat * nat))
  (best : nat * nat * nat) : nat * nat * nat :=
  match is with
  | [] => best
  | i :: is' =>
      let '(newj2len, best') := inner_loop blo bhi i (b2j_get (at_ a i)) j2len [] best in
      outer_loop blo bhi is' newj2len best'
  end.

(** The [while] loops extending the block backwards and forwards over
    elements whose junk status is [junk]. *)
Fixpoint extend_back (junk : bool) (alo blo fuel : nat) (best : nat * nat * nat)
  : nat * nat * nat :=
  match fuel with
  | O => best
  | S f =>
      let '(besti, bestj, bestsize) := best in
      if (alo <? besti) && (blo <? bestj) && Bool.eqb (isbjunk (at_ b (bestj - 1))) junk
         && Ascii.eqb (at_ a (besti - 1)) (at_ b (bestj - 1))
      then extend_back junk alo blo f (besti - 1, bestj - 1, bestsize + 1)
      else best
  end.

Fixpoint extend_fwd (junk : bool) (ahi bhi fuel : nat) (best : nat * nat * nat)
  : nat * nat * nat :=
  match fuel with
  | O => best
  | S f =>
      let '(besti, bestj, bestsize) := best in
      if (besti + bestsize <? ahi) && (bestj + bestsize <? bhi)
         && Bool.eqb (isbjunk (at_ b (bestj + bestsize))) junk
         && Ascii.eqb (at_ a (besti + bestsize)) (at_ b (bestj + bestsize))
      then extend_fwd junk ahi bhi f (besti, bestj, bestsize + 1)
      else best
  end.

Definition find_longest_match (alo ahi blo bhi : nat) : nat * nat * nat :=
  let best := outer_loop blo bhi (seq alo (ahi - alo)) [] (alo, blo, 0) in
  let best := extend_back false alo blo (S ahi) best in
  let best := extend_fwd false ahi bhi (S ahi) best in
  let best := extend_back true alo blo (S ahi) best in
  extend_fwd true ahi bhi (S ahi) best.

(** The blocks found by the [queue] loop of [get_matching_blocks]: each
    popped range contributes its longest match and pushes the ranges left
    and right of it. Sorting the blocks and merging adjacent ones keep the
    sum of their sizes, which is all [ratio] uses. Each recursive range is
    strictly shorter in [a], so [fuel = len(a) + 1] suffices. *)
Fixpoint matching_blocks (fuel alo ahi blo bhi : nat) : list (nat * nat * nat) :=
  match fuel with
  | O => []
  | S f =>
      let '(i, j, k) := find_longest_match alo ahi blo bhi in
      if k =? 0 then []
      else
        (i, j, k)
          :: (if (alo <? i) && (blo <? j) then matching_blocks f alo i blo j else [])
          ++ (if (i + k <? ahi) && (j + k <? bhi)
              then matching_blocks f (i + k) ahi (j + k) bhi else [])
  end.

Definition get_matching_blocks : list (nat * nat * nat) :=
  matching_blocks (S (List.length a)) 0 (List.length a) 0 (List.length b).

Definition matches : nat := fold_right (fun '(_, _, k) acc => k + acc) 0 get_matching_blocks.

(** [_calculate_ratio(matches, len(a) + len(b))] *)
Definition ratio : Q :=
  let length := (List.length a + List.length b)%nat in
  if length =? 0 then 1%Q
  else (2 * inject_Z (Z.of_nat matches) / inject_Z (Z.of_nat length))%Q.

End Matcher.
End SequenceMatcher.

(** ** [service_orchestrator.py]: [EvaluationService], [ComparisonService] *)

Module Orchestrator.
Import PyStr.

(** A Python [Optional[str]] is truthy when present and non-empty. *)
Definition opt_truthy (v : option string) : bool :=
  match v with Some s => negb (String.eqb s "") | None => false end.

Definition opt_eqb (x y : option string) : bool :=
  match x, y with
  | Some s, Some t => String.eqb s t
  | None, None => true
  | _, _ => false
  end.

(** [str(v)] of an [Optional[str]]. *)
Definition py_str (v : option string) : string :=
  match v with Some s => s | None => "None" end.

(** [EvaluationService._calculate_match_score] *)
Definition _calculate_match_score (ai_value human_value : option string) : Q :=
  if negb (opt_truthy ai_value) || negb (opt_truthy human_value) then
    if negb (opt_eqb ai_value human_value) then 0%Q else 1%Q
  else
    let ai_norm := strip (lower (py_str ai_value)) in
    let human_norm := strip (lower (py_str human_value)) in
    if String.eqb ai_norm human_norm then 1%Q
    else SequenceMatcher.ratio (chars ai_norm) (chars human_norm).

(** *** [ComparisonService.generate_comparison_table] *)

(** The repository rows the table reads. *)
Record document := {
  doc_id : string;
  filename : string;
  file_type : string
}.

Record extraction := {
  ex_id : string;
  ex_document_id : string;
  ex_field_name : string;
  ex_field_type : string;
  ex_extracted_value : option string;
  ex_normalized_value : option string;
  ex_confidence_score : Q;
  ex_status : string
}.

(** [{'id', 'extracted_value', 'normalized_value', 'confidence_score', 'status'}] *)
Record cell_result := {
  cr_id : string;
  cr_extracted_value : option string;
  cr_normalized_value : option string;
  cr_confidence_score : Q;
  cr_status : string
}.

(** A cell of [document_results]: a stored result, or the sentinel
    [{'extracted_value': 'N/A', 'confidence_score': 0.0}]. *)
Inductive cell :=
| CellResult (r : cell_result)
| CellNA.

Definition cell_extracted_value (c : cell) : option string :=
  match c with CellResult r => cr_extracted_value r | CellNA => Some "N/A" end.

Definition cell_confidence_score (c : cell) : Q :=
  match c with CellResult r => cr_confidence_score r | CellNA => 0%Q end.

(** Python dictionaries keyed by strings, in insertion order. *)
Fixpoint lookup {A} (d : list (string * A)) (k : string) : option A :=
  match d with
  | [] => None
  | (k', v) :: d' => if String.eqb k' k then Some v else lookup d' k
  end.

(** [d[k] = v]: replace in place, or append a new key. *)
Fixpoint dict_set {A} (d : list (string * A)) (k : string) (v : A) : list (string * A) :=
  match d with
  | [] => [(k, v)]
  | (k', v') :: d' => if String.eqb k' k then (k, v) :: d' else (k', v') :: dict_set d' k v
  end.

Record field_group := {
  g_field_name : string;
  g_field_type : string;
  g_results : list (string * cell_result)
}.

Record comparison_row := {
  row_field_name : string;
  row_field_type : string;
  document_results : list (string * cell)
}.

Definition summary (e : extraction) : cell_result :=
  {| cr_id := ex_id e;
     cr_extracted_value := ex_extracted_value e;
     cr_normalized_value := ex_normalized_value e;
     cr_confidence_score := ex_confidence_score e;
     cr_status := ex_status e |}.

(** The [for extraction in extractions] grouping loop. *)
Definition group_step (field_groups : list (string * field_group)) (e : extraction)
  : list (string * field_group) :=
  let field_name := ex_field_name e in
  let field_groups :=
    match lookup field_groups field_name with
    | Some _ => field_groups
    | None =>
        dict_set field_groups field_name
          {| g_field_name := field_name; g_field_type := ex_field_type e; g_results := [] |}
    end in
  match lookup field_groups field_name with
  | Some g =>
      dict_set field_groups field_name
        {| g_field_name := g_field_name g; g_field_type := g_field_type g;
           g_results := dict_set (g_results g) (ex_document_id e) (summary e) |}
  | None => field_groups
  end.

Definition group_extractions (extractions : list extraction) : list (string * field_group) :=
  fold_left group_step extractions [].

(** [{doc.id: group['results'].get(doc.id, sentinel) for doc in documents}] *)
Definition row_cells (documents : list document) (g : field_group) : list (string * cell) :=
  fold_left
    (fun d doc =>
       dict_set d (doc_id doc)
         (match lookup (g_results g) (doc_id doc) with
          | Some r => CellResult r
          | None => CellNA
          end))
    documents [].

Definition make_row (documents : list document) (g : field_group) : comparison_row :=
  {| row_field_name := g_field_name g;
     row_field_type := g_field_type g;
     document_results := row_cells documents g |}.

(** The ['rows'] of the returned table. *)
Definition generate_comparison_table (documents : list document) (extractions : list extraction)
  : list comparison_row :=
  match documents, extractions with
  | [], _ | _, [] => []
  | _, _ => map (fun '(_, g) => make_row documents g) (group_extractions extractions)
  end.

End Orchestrator.

(** *** [EvaluationService] and the repository rows it reads and writes *)

Module Evaluation.
Import PyStr Orchestrator.

(** An [EvaluationResult] row.  Its [id] is assigned by the database; it
    is modelled as the row's position in the table. *)
Record evaluation_row := {
  ev_id : nat;
  ev_project_id : string;
  ev_document_id : string;
  ev_field_name : string;
  ev_ai_value : option string;
  ev_human_value : option string;
  ev_match_score : Q;
  ev_normalized_match : bool
}.

(** The two tables: extraction rows with their [project_id], and
    evaluation rows.  Queries without [ORDER BY] return rows in insertion
    order. *)
Record store := {
  st_extractions : list (string * extraction);
  st_evaluations : list evaluation_row
}.

(** [if field_name: query = query.filter(... == field_name)] *)
Definition filter_if (arg : option string) (column : string) : bool :=
  if opt_truthy arg then String.eqb column (py_str arg) else true.

(** [DatabaseRepository.list_extractions_by_project] *)
Definition list_extractions_by_project (st : store) (project_id : string)
  (field_name document_id : option string) : list extraction :=
  map snd (filter (fun '(p, e) =>
                     String.eqb p project_id && filter_if field_name (ex_field_name e)
                     && filter_if document_id (ex_document_id e))
             (st_extractions st)).

(** [DatabaseRepository.create_evaluation] *)
Definition create_evaluation (st : store) (project_id document_id field_name : string)
  (ai_value human_value : option string) (match_score : Q) (normalized_match : bool)
  : store * evaluation_row :=
  let row := {| ev_id := List.length (st_evaluations st);
                ev_project_id := project_id; ev_document_id := document_id;
                ev_field_name := field_name; ev_ai_value := ai_value;
                ev_human_value := human_value; ev_match_score := match_score;
                ev_normalized_match := normalized_match |} in
  ({| st_extractions := st_extractions st;
      st_evaluations := (st_evaluations st ++ [row])%list |}, row).

(** The returned dictionary: [{'status': 'extraction_not_found'}] or the
    stored evaluation. *)
Inductive evaluation_response :=
| ExtractionNotFound
| Evaluated (row : evaluation_row).

(** [Optional[str]] [a or b] *)
Definition opt_or (a b : option string) : option string := if opt_truthy a then a else b.

(** [EvaluationService.evaluate_extraction] *)
Definition evaluate_extraction (st : store) (project_id document_id field_name : string)
  (human_value : option string) : store * evaluation_response :=
  let extractions := list_extractions_by_project st project_id (Some field_name) (Some document_id) in
  match extractions with
  | [] => (st, ExtractionNotFound)
  | extraction :: _ =>
      let ai_value := opt_or (ex_normalized_value extraction) (ex_extracted_value extraction) in
      let match_score := _calculate_match_score ai_value human_value in
      let normalized_match := negb (Qle_bool match_score (8#10)) in
      let '(st', evaluation) :=
        create_evaluation st project_id document_id field_name ai_value human_value
          match_score normalized_match in
      (st', Evaluated evaluation)
  end.

(** [DatabaseRepository.list_evaluations(project_id)] *)
Definition list_evaluations (st : store) (project_id : string) : list evaluation_row :=
  filter (fun ev => String.eqb (ev_project_id ev) project_id) (st_evaluations st).

Record metrics := {
  total_fields : nat;
  matched_fields : nat;
  field_accuracy : Q;
  average_confidence : Q;
  coverage_percentage : Q
}.

Definition q_of_nat (n : nat) : Q := inject_Z (Z.of_nat n).

(** [e.match_score > 0.8] *)
Definition above (score : Q) : bool := negb (Qle_bool score (8#10)).

(** [DatabaseRepository.get_evaluation_metrics] *)
Definition get_evaluation_metrics (st : store) (project_id : string) : metrics :=
  let evaluations := list_evaluations st project_id in
  match evaluations with
  | [] => {| total_fields := 0; matched_fields := 0; field_accuracy := 0;
             average_confidence := 0; coverage_percentage := 0 |}
  | _ =>
      let total := List.length evaluations in
      let matched := List.length (filter (fun e => above (ev_match_score e)) evaluations) in
      let accuracy := if 0 <? total then (q_of_nat matched / q_of_nat total)%Q else 0%Q in
      let avg_confidence :=
        if 0 <? total then
          (fold_left (fun s e => s + ev_match_score e) evaluations 0 / q_of_nat total)%Q
        else 0%Q in
      {| total_fields := total; matched_fields := matched; field_accuracy := accuracy;
         average_confidence := avg_confidence;
         coverage_percentage :=
           if 0 <? total then (q_of_nat matched / q_of_nat total * 100)%Q else 0%Q |}
  end.

(** An entry of [field_results]. *)
Record field_result := {
  fr_field_name : string;
  fr_total : nat;
  fr_matched : nat;
  fr_accuracy : Q
}.

(** [d[k][...] += 1] on an entry known to exist. *)
Definition update {A} (d : list (string * A)) (k : string) (f : A -> A) : list (string * A) :=
  match lookup d k with Some v => dict_set d k (f v) | None => d end.

(** The body of the [for evaluation in evaluations] loop. *)
Definition report_step (field_results : list (string * field_result)) (evaluation : evaluation_row)
  : list (string * field_result) :=
  let field_name := ev_field_name evaluation in
  let field_results :=
    match lookup field_results field_name with
    | Some _ => field_results
    | None =>
        dict_set field_results field_name
          {| fr_field_name := field_name; fr_total := 0; fr_matched := 0; fr_accuracy := 0 |}
    end in
  let field_results :=
    update field_results field_name
      (fun r => {| fr_field_name := fr_field_name r; fr_total := S (fr_total r);
                   fr_matched := fr_matched r; fr_accuracy := fr_accuracy r |}) in
  if above (ev_match_score evaluation) then
    update field_results field_name
      (fun r => {| fr_field_name := fr_field_name r; fr_total := fr_total r;
                   fr_matched := S (fr_matched r); fr_accuracy := fr_accuracy r |})
  else field_results.

(** [matched / total if total > 0 else 0.0] *)
Definition with_accuracy (r : field_result) : field_result :=
  {| fr_field_name := fr_field_name r; fr_total := fr_total r; fr_matched := fr_matched r;
     fr_accuracy :=
       if 0 <? fr_total r then (q_of_nat (fr_matched r) / q_of_nat (fr_total r))%Q else 0%Q |}.

(** The returned report; its [summary] text and [generated_at] timestamp
    are not modelled. *)
Record report := {
  rp_project_id : string;
  rp_metrics : metrics;
  rp_field_results : list field_result
}.

(** [EvaluationService.generate_evaluation_report] *)
Definition generate_evaluation_report (st : store) (project_id : string) : report :=
  let metrics := get_evaluation_metrics st project_id in
  let evaluations := list_evaluations st project_id in
  let field_results := fold_left report_step evaluations [] in
  let field_results := map (fun '(k, r) => (k, with_accuracy r)) field_results in
  {| rp_project_id := project_id; rp_metrics := metrics;
     rp_field_results := map snd field_results |}.

End Evaluation.

(** *** [ExtractionService] and [ReviewService] over the repository tables *)

Module Services.
Import PyStr FieldExtractor.

(** Rows of the tables these services read and write.  Row ids of
    extractions and review states are assigned by the database; they are
    modelled as the row's position in its table.  Values copied from an
    extraction record keep their Python type ([pyval]). *)
Record document_row := {
  drow_id : string;
  drow_project_id : string;
  drow_content_text : string;
  drow_status : string
}.

Record chunk_row := {
  crow_document_id : string;
  crow_chunk_index : nat;
  crow_text : string;
  crow_page_number : pyval;
  crow_section_title : option string
}.

Record extraction_row := {
  xrow_id : nat;
  xrow_project_id : string;
  xrow_document_id : string;
  xrow_field_name : pyval;
  xrow_field_type : pyval;
  xrow_extracted_value : pyval;
  xrow_raw_text : pyval;
  xrow_normalized_value : pyval;
  xrow_confidence_score : Q;
  xrow_method : option string;
  xrow_status : string
}.

Record citation_row := {
  cit_extraction_id : nat;
  cit_document_id : string;
  cit_citation_text : string;
  cit_page_number : pyval;
  cit_section_title : pyval;
  cit_relevance_score : Q;
  cit_chunk_id : option string
}.

Record review_row := {
  rv_id : nat;
  rv_project_id : string;
  rv_extraction_id : nat;
  rv_ai_value : pyval;
  rv_status : string;
  rv_manual_value : option string;
  rv_reviewer_notes : option string;
  rv_reviewed_by : option string
}.

Record repo := {
  r_documents : list document_row;
  r_chunks : list chunk_row;
  r_extractions : list extraction_row;
  r_citations : list citation_row;
  r_reviews : list review_row
}.

(** The exceptions these services raise. *)
Inductive service_error :=
| Raised (e : exn)              (* from [FieldExtractor.extract_fields] *)
| ValueError (msg : string)
| KeyError (key : string).

(** A service call returns the repository as it leaves it (the commits
    made before an exception stay), and a value or an exception. *)
Inductive outcome (A : Type) :=
| Done (r : repo) (a : A)
| Failed (r : repo) (e : service_error).
Arguments Done {A}.
Arguments Failed {A}.

(** **** Repository operations *)

Definition get_document (r : repo) (document_id : string) : option document_row :=
  find (fun d => String.eqb (drow_id d) document_id) (r_documents r).

Definition list_project_documents (r : repo) (project_id : string) : list document_row :=
  filter (fun d => String.eqb (drow_project_id d) project_id) (r_documents r).

(** [.order_by(DocumentChunk.chunk_index)]: a stable sort on the index. *)
Fixpoint insert_by_index (c : chunk_row) (l : list chunk_row) : list chunk_row :=
  match l with
  | [] => [c]
  | c' :: l' => if crow_chunk_index c' <=? crow_chunk_index c then c' :: insert_by_index c l'
                else c :: l
  end.

Definition get_document_chunks (r : repo) (document_id : string) : list chunk_row :=
  fold_left (fun acc c => insert_by_index c acc)
    (filter (fun c => String.eqb (crow_document_id c) document_id) (r_chunks r)) [].

(** [doc.status = status] on the first document with that id. *)
Fixpoint set_document_status (l : list document_row) (document_id status : string)
  : list document_row :=
  match l with
  | [] => []
  | d :: l' =>
      if String.eqb (drow_id d) document_id then
        {| drow_id := drow_id d; drow_project_id := drow_project_id d;
           drow_content_text := drow_content_text d; drow_status := status |} :: l'
      else d :: set_document_status l' document_id status
  end.

Definition update_document_status (r : repo) (document_id status : string) : repo :=
  {| r_documents := set_document_status (r_documents r) document_id status;
     r_chunks := r_chunks r; r_extractions := r_extractions r;
     r_citations := r_citations r; r_reviews := r_reviews r |}.

(** Inserts are taken to succeed.  A value the database driver cannot bind
    (a list where the column holds a string, say) makes the real commit
    raise, leaving the rows committed before it in place; that error path
    is not modelled, so facts proved here about a [Failed] outcome cover
    only the errors the model raises. *)
Definition create_extraction (r : repo) (project_id document_id : string) (res : extraction_record)
  : repo * extraction_row :=
  let x := {| xrow_id := List.length (r_extractions r);
              xrow_project_id := project_id; xrow_document_id := document_id;
              xrow_field_name := field_name res; xrow_field_type := field_type res;
              xrow_extracted_value := extracted_value res; xrow_raw_text := raw_text res;
              xrow_normalized_value := normalized_value res;
              xrow_confidence_score := confidence_score res;
              xrow_method := method res; xrow_status := "EXTRACTED" |} in
  ({| r_documents := r_documents r; r_chunks := r_chunks r;
      r_extractions := (r_extractions r ++ [x])%list;
      r_citations := r_citations r; r_reviews := r_reviews r |}, x).

(** [create_citation] as the service calls it: no [chunk_id] argument. *)
Definition create_citation (r : repo) (extraction_id : nat) (document_id : string)
  (c : citation) : repo :=
  let row := {| cit_extraction_id := extraction_id; cit_document_id := document_id;
                cit_citation_text := citation_text c; cit_page_number := page_number c;
                cit_section_title := section_title c; cit_relevance_score := relevance_score c;
                cit_chunk_id := None |} in
  {| r_documents := r_documents r; r_chunks := r_chunks r; r_extractions := r_extractions r;
     r_citations := (r_citations r ++ [row])%list; r_reviews := r_reviews r |}.

Definition create_review_state (r : repo) (project_id : string) (extraction_id : nat)
  (ai_value : pyval) : repo * review_row :=
  let rv := {| rv_id := List.length (r_reviews r); rv_project_id := project_id;
               rv_extraction_id := extraction_id; rv_ai_value := ai_value;
               rv_status := "PENDING"; rv_manual_value := None;
               rv_reviewer_notes := None; rv_reviewed_by := None |} in
  ({| r_documents := r_documents r; r_chunks := r_chunks r; r_extractions := r_extractions r;
      r_citations := r_citations r; r_reviews := (r_reviews r ++ [rv])%list |}, rv).

(** **** [ExtractionService] *)

(** [c.section_title or 'Main'] *)
Definition section_or_main (s : option string) : string :=
  match s with Some t => if String.eqb t "" then "Main" else t | None => "Main" end.

(** [chunks_data] *)
Definition chunks_data (chunks : list chunk_row) : list pyval :=
  map (fun c => PDict [("text", PStr (crow_text c)); ("page_number", crow_page_number c);
                       ("section", PStr (section_or_main (crow_section_title c)))]) chunks.

(** The body of the [for result in extraction_results] loop; the stored
    result dictionaries are projections of the extraction rows. *)
Definition store_result (project_id document_id : string)
  (acc : repo * list extraction_row) (result : extraction_record) : repo * list extraction_row :=
  let '(r, stored_results) := acc in
  let '(r, extraction) := create_extraction r project_id document_id result in
  let r := fold_left (fun r c => create_citation r (xrow_id extraction) document_id c)
             (citations result) r in
  let '(r, _) := create_review_state r project_id (xrow_id extraction)
                   (xrow_extracted_value extraction) in
  (r, (stored_results ++ [extraction])%list).

(** [ExtractionService.extract_fields_for_document]; the service's
    extractor has no LLM client. *)
Definition extract_fields_for_document (r : repo) (project_id document_id : string)
  (field_definitions : list pyval) : outcome (list extraction_row) :=
  match get_document r document_id with
  | None => Failed r (ValueError ("Document not found: " ++ document_id))
  | Some document =>
      let chunks := get_document_chunks r document_id in
      match extract_fields None (drow_content_text document) (chunks_data chunks)
              field_definitions with
      | Err e => Failed r (Raised e)
      | Ok extraction_results =>
          let '(r, stored_results) :=
            fold_left (store_result project_id document_id) extraction_results (r, []) in
          Done (update_document_status r document_id "EXTRACTED") stored_results
      end
  end.

(** The [for document in documents] loop of [extract_all_documents]. *)
Fixpoint extract_loop (r : repo) (project_id : string) (field_definitions : list pyval)
  (documents : list document_row) (total_extracted : nat) : outcome nat :=
  match documents with
  | [] => Done r total_extracted
  | document :: rest =>
      match extract_fields_for_document r project_id (drow_id document) field_definitions with
      | Failed r' e => Failed r' e
      | Done r' results =>
          extract_loop r' project_id field_definitions rest
            (total_extracted + List.length results)
      end
  end.

(** [ExtractionService.extract_all_documents]: [documents_processed] and
    [total_fields_extracted]. *)
Definition extract_all_documents (r : repo) (project_id : string) (field_definitions : list pyval)
  : outcome (nat * nat) :=
  let documents := list_project_documents r project_id in
  match extract_loop r project_id field_definitions documents 0 with
  | Done r' total_extracted => Done r' (List.length documents, total_extracted)
  | Failed r' e => Failed r' e
  end.

(** **** [ReviewService] *)

Section Review.

(** The member names of [ExtractionStatus] (defined in the schema module). *)
Variable extraction_status : list string.
(** [ExtractionStatus[name].value], for a member name. *)
Variable status_value : string -> string.
(** Whether the [ReviewState] model (in the schema module) has a
    [reviewed_by] attribute: [update_review_state] sets an attribute only
    [if hasattr(review, key)].  The service itself reads [status],
    [manual_value] and [reviewer_notes] back from the row, so these exist. *)
Variable has_reviewed_by : bool.

(** The dictionary [update_extraction_review] returns ([reviewed_at] is not
    modelled). *)
Record review_response := {
  resp_id : nat;
  resp_extraction_id : nat;
  resp_status : string;
  resp_ai_value : pyval;
  resp_manual_value : option string;
  resp_reviewer_notes : option string
}.

Definition get_extraction (r : repo) (extraction_id : nat) : option extraction_row :=
  find (fun x => Nat.eqb (xrow_id x) extraction_id) (r_extractions r).

Definition list_pending_reviews (r : repo) (project_id : string) : list review_row :=
  filter (fun rv => String.eqb (rv_project_id rv) project_id && String.eqb (rv_status rv) "PENDING")
    (r_reviews r).

(** [update_review_state(review_id, status=..., manual_value=..., ...)] *)
Fixpoint set_review (l : list review_row) (review_id : nat) (status : string)
  (manual_value reviewer_notes reviewed_by : option string) : list review_row :=
  match l with
  | [] => []
  | rv :: l' =>
      if Nat.eqb (rv_id rv) review_id then
        {| rv_id := rv_id rv; rv_project_id := rv_project_id rv;
           rv_extraction_id := rv_extraction_id rv; rv_ai_value := rv_ai_value rv;
           rv_status := status; rv_manual_value := manual_value;
           rv_reviewer_notes := reviewer_notes;
           rv_reviewed_by := if has_reviewed_by then reviewed_by else rv_reviewed_by rv |} :: l'
      else rv :: set_review l' review_id status manual_value reviewer_notes reviewed_by
  end.

Definition update_review_state (r : repo) (review_id : nat) (status : string)
  (manual_value reviewer_notes reviewed_by : option string) : repo * option review_row :=
  let r' := {| r_documents := r_documents r; r_chunks := r_chunks r;
               r_extractions := r_extractions r; r_citations := r_citations r;
               r_reviews := set_review (r_reviews r) review_id status manual_value
                              reviewer_notes reviewed_by |} in
  (r', find (fun rv => Nat.eqb (rv_id rv) review_id) (r_reviews r')).

(** [update_extraction(extraction_id, status=...)] *)
Fixpoint set_extraction_status (l : list extraction_row) (extraction_id : nat) (status : string)
  : list extraction_row :=
  match l with
  | [] => []
  | x :: l' =>
      if Nat.eqb (xrow_id x) extraction_id then
        {| xrow_id := xrow_id x; xrow_project_id := xrow_project_id x;
           xrow_document_id := xrow_document_id x; xrow_field_name := xrow_field_name x;
           xrow_field_type := xrow_field_type x; xrow_extracted_value := xrow_extracted_value x;
           xrow_raw_text := xrow_raw_text x; xrow_normalized_value := xrow_normalized_value x;
           xrow_confidence_score := xrow_confidence_score x; xrow_method := xrow_method x;
           xrow_status := status |} :: l'
      else x :: set_extraction_status l' extraction_id status
  end.

Definition update_extraction (r : repo) (extraction_id : nat) (status : string) : repo :=
  {| r_documents := r_documents r; r_chunks := r_chunks r;
     r_extractions := set_extraction_status (r_extractions r) extraction_id status;
     r_citations := r_citations r; r_reviews := r_reviews r |}.

(** [ReviewService.update_extraction_review]. *)
Definition update_extraction_review (r : repo) (extraction_id : nat) (status : string)
  (manual_value reviewer_notes reviewed_by : option string) : outcome review_response :=
  match get_extraction r extraction_id with
  | None => Failed r (ValueError "Extraction not found")
  | Some extraction =>
      let review_states := list_pending_reviews r (xrow_project_id extraction) in
      let '(r, review_state) :=
        match find (fun rv => Nat.eqb (rv_extraction_id rv) extraction_id) review_states with
        | Some rv => (r, rv)
        | None => create_review_state r (xrow_project_id extraction) extraction_id
                    (xrow_extracted_value extraction)
        end in
      (* [ExtractionStatus[status]] *)
      if negb (existsb (String.eqb status) extraction_status) then Failed r (KeyError status)
      else
        let '(r, updated) :=
          update_review_state r (rv_id review_state) status manual_value reviewer_notes
            reviewed_by in
        match updated with
        | None =>
            Failed (update_extraction r extraction_id status)
              (Raised (AttributeError "'NoneType' object has no attribute 'id'"))
        | Some review_state =>
            let r := update_extraction r extraction_id status in
            Done r {| resp_id := rv_id review_state; resp_extraction_id := extraction_id;
                      resp_status := status_value (rv_status review_state);
                      resp_ai_value := rv_ai_value review_state;
                      resp_manual_value := rv_manual_value review_state;
                      resp_reviewer_notes := rv_reviewer_notes review_state |}
        end
  end.

End Review.

End Services.

(** Concrete documents and extractions for the examples. *)
Module TableExamples.

Definition w_doc : Orchestrator.document :=
  {| Orchestrator.doc_id := "d1"; Orchestrator.filename := "a.pdf"; Orchestrator.file_type := "PDF" |}.

Definition w_ex (id field ftype : string) (v : string) : Orchestrator.extraction :=
  {| Orchestrator.ex_id := id; Orchestrator.ex_document_id := "d1";
     Orchestrator.ex_field_name := field; Orchestrator.ex_field_type := ftype;
     Orchestrator.ex_extracted_value := Some v; Orchestrator.ex_normalized_value := Some v;
     Orchestrator.ex_confidence_score := (9 # 10)%Q; Orchestrator.ex_status := "PENDING" |}.

End TableExamples.

(** Concrete tables for the examples below. *)
Module ReviewExamples.
Import PyStr Services.

Definition ex_status : list string := ["PENDING"; "APPROVED"].

(** One possible assignment of member values. *)
Definition ex_status_value (name : string) : string :=
  if String.eqb name "APPROVED" then "approved" else if String.eqb name "PENDING" then "pending" else name.

Definition ex_row : extraction_row :=
  {| xrow_id := 0; xrow_project_id := "p"; xrow_document_id := "d";
     xrow_field_name := PStr "Party"; xrow_field_type := PStr "TEXT";
     xrow_extracted_value := PStr "Acme"; xrow_raw_text := PStr "Acme";
     xrow_normalized_value := PStr "Acme"; xrow_confidence_score := 1#2;
     xrow_method := Some "heuristic"; xrow_status := "EXTRACTED" |}.

Definition ex_repo : repo :=
  {| r_documents := []; r_chunks := []; r_extractions := [ex_row];
     r_citations := []; r_reviews := [] |}.

End ReviewExamples.

(** * Properties *)

(** Case analysis on a [bind] in a hypothesis [bind m k = Ok r]. *)
Ltac inv_bind H :=
  repeat match type of H with
  | bind ?m _ = _ =>
      let E := fresh "E" in
      destruct m eqn:E; cbn [bind] in H; [| discriminate H]
  end.

Module RegexFacts.
Import PyStr Regex.

(** The groups a successful match of [r] always sets: those not under an
    alternation or a repetition. *)
Fixpoint sets (r : regex) : list nat :=
  match r with
  | RSeq r1 r2 => (sets r1 ++ sets r2)%list
  | RGroup n r1 => n :: sets r1
  | _ => []
  end.

Lemma cap_lookup_app_r (pre cs : caps) n :
  cap_lookup cs n <> None -> cap_lookup (pre ++ cs)%list n <> None.
Proof.
  induction pre as [| [m sp] pre IH]; cbn; [tauto |].
  intros H. destruct (m =? n); [discriminate | exact (IH H)].
Qed.

(** A successful match hands its continuation an end position and a
    capture list that extends the initial one and sets the groups of
    [sets r]. *)
Lemma mtch_cont icase s r : forall i cs k res,
  mtch icase s r i cs k = Some res ->
  exists j cs', k j cs' = Some res /\ (exists pre, cs' = (pre ++ cs)%list) /\
    forall n, In n (sets r) -> cap_lookup cs' n <> None.
Proof.
  induction r as [p | r1 IH1 r2 IH2 | r1 IH1 r2 IH2 | greedy lo hi r1 IH1 | n r1 IH1 |];
    intros i cs k res H; cbn [mtch sets] in *.
  - destruct (nth_error s i) as [c |]; [| discriminate].
    destruct (class_match icase p c); [| discriminate].
    exists (S i), cs. split; [exact H |]. split; [exists []; reflexivity | intros n []].
  - destruct (IH1 _ _ _ _ H) as (j1 & cs1 & H1 & [pre1 E1] & S1).
    destruct (IH2 _ _ _ _ H1) as (j2 & cs2 & H2 & [pre2 E2] & S2).
    exists j2, cs2. split; [exact H2 |].
    split; [exists (pre2 ++ pre1)%list; rewrite E2, E1, app_assoc; reflexivity |].
    intros n Hn. apply in_app_or in Hn. destruct Hn as [Hn | Hn]; [| exact (S2 n Hn)].
    rewrite E2. apply cap_lookup_app_r, S1, Hn.
  - destruct (mtch icase s r1 i cs k) as [x |] eqn:E.
    + injection H as <-. destruct (IH1 _ _ _ _ E) as (j & cs' & Hk & Hp & _).
      exists j, cs'. split; [exact Hk |]. split; [exact Hp | intros n []].
    + destruct (IH2 _ _ _ _ H) as (j & cs' & Hk & Hp & _).
      exists j, cs'. split; [exact Hk |]. split; [exact Hp | intros n []].
  - assert (Hrep : forall fuel m i0 cs0,
      (fix rep (fuel n i : nat) (cs : caps) : option (nat * caps) :=
        match fuel with
        | O => None
        | S f =>
            if n <? lo then
              mtch icase s r1 i cs (fun j cs' => rep f (S n) j cs')
            else if match hi with Some h => h <=? n | None => false end then
              k i cs
            else if greedy then
              match mtch icase s r1 i cs
                      (fun j cs' => if j =? i then None else rep f (S n) j cs')
              with
              | Some x => Some x
              | None => k i cs
              end
            else
              match k i cs with
              | Some x => Some x
              | None =>
                  mtch icase s r1 i cs
                    (fun j cs' => if j =? i then None else rep f (S n) j cs')
              end
        end) fuel m i0 cs0 = Some res ->
      exists j cs', k j cs' = Some res /\ exists pre, cs' = (pre ++ cs0)%list).
    { induction fuel as [| f IHf]; intros m i0 cs0 Hr; [discriminate |].
      (* one iteration of the body, then the rest of the loop *)
      assert (Hbody : forall cont,
        mtch icase s r1 i0 cs0 cont = Some res ->
        (forall j cs2, cont j cs2 = Some res ->
           exists j' cs', k j' cs' = Some res /\ exists pre, cs' = (pre ++ cs2)%list) ->
        exists j cs', k j cs' = Some res /\ exists pre, cs' = (pre ++ cs0)%list).
      { intros cont Hm Hc. destruct (IH1 _ _ _ _ Hm) as (j1 & cs2 & H1 & [pre1 E1] & _).
        destruct (Hc _ _ H1) as (j' & cs' & Hk & [pre E]).
        exists j', cs'. split; [exact Hk |]. exists (pre ++ pre1)%list.
        rewrite E, E1, app_assoc. reflexivity. }
      assert (Hnext : forall j cs2,
        (if j =? i0 then None else
           (fix rep (fuel n i : nat) (cs : caps) : option (nat * caps) :=
              match fuel with
              | O => None
              | S f =>
                  if n <? lo then
                    mtch icase s r1 i cs (fun j cs' => rep f (S n) j cs')
                  else if match hi with Some h => h <=? n | None => false end then
                    k i cs
                  else if greedy then
                    match mtch icase s r1 i cs
                            (fun j cs' => if j =? i then None else rep f (S n) j cs')
                    with
                    | Some x => Some x
                    | None => k i cs
                    end
                  else
                    match k i cs with
                    | Some x => Some x
                    | None =>
                        mtch icase s r1 i cs
                          (fun j cs' => if j =? i then None else rep f (S n) j cs')
                    end
              end) f (S m) j cs2) = Some res ->
        exists j' cs', k j' cs' = Some res /\ exists pre, cs' = (pre ++ cs2)%list).
      { intros j cs2 Hj. destruct (j =? i0); [discriminate | exact (IHf _ _ _ Hj)]. }
      cbv beta iota in Hr. revert Hr.
      destruct (m <? lo); intros Hr.
      { apply (Hbody _ Hr). intros j cs2 Hj. exact (IHf _ _ _ Hj). }
      revert Hr. destruct (match hi with Some h => h <=? m | None => false end); intros Hr.
      { exists i0, cs0. split; [exact Hr | exists []; reflexivity]. }
      revert Hr Hnext. destruct greedy; intros Hr Hnext.
      - destruct (mtch icase s r1 i0 cs0 _) as [x |] eqn:E.
        + injection Hr as <-. exact (Hbody _ E Hnext).
        + exists i0, cs0. split; [exact Hr | exists []; reflexivity].
      - destruct (k i0 cs0) as [x |] eqn:E.
        + injection Hr as <-. exists i0, cs0. split; [exact E | exists []; reflexivity].
        + exact (Hbody _ Hr Hnext). }
    destruct (Hrep (S (lo + List.length s)) 0 i cs H) as (j & cs' & Hk & Hp).
    exists j, cs'. split; [exact Hk |]. split; [exact Hp | intros n []].
  - destruct (IH1 _ _ _ _ H) as (j & cs1 & H1 & [pre1 E1] & S1).
    exists j, ((n, (i, j)) :: cs1). split; [exact H1 |].
    split; [exists ((n, (i, j)) :: pre1); rewrite E1; reflexivity |].
    intros m [<- | Hm]; cbn.
    + rewrite Nat.eqb_refl. discriminate.
    + destruct (n =? m); [discriminate | exact (S1 m Hm)].
  - exists i, cs. split; [exact H |]. split; [exists []; reflexivity | intros n []].
Qed.

Lemma search_from_some icase r s i fuel m :
  search_from icase r s i fuel = Some m -> exists i', match_at icase r s i' = Some m.
Proof.
  revert i. induction fuel as [| f IH]; intros i H; cbn in H; [discriminate |].
  destruct (match_at icase r s i) as [m' |] eqn:E.
  - injection H as <-. exists i. exact E.
  - exact (IH _ H).
Qed.

Lemma search_some icase r text m :
  search icase r text = Some m -> exists i, match_at icase r (chars text) i = Some m.
Proof. apply search_from_some. Qed.

(** The groups of [sets r] of a match of [r] are set, and [group] returns
    a string for each. *)
Lemma search_groups icase r text m n :
  search icase r text = Some m -> In n (sets r) -> exists g, group text m n = Some g.
Proof.
  intros Hs Hn. destruct (search_some _ _ _ _ Hs) as [i Hm].
  unfold match_at in Hm.
  destruct (mtch icase (chars text) r i [] (fun j cs => Some (j, cs))) as [[j cs] |] eqn:E;
    [| discriminate].
  injection Hm as <-.
  destruct (mtch_cont _ _ _ _ _ _ _ E) as (j' & cs' & Hk & _ & Hset).
  injection Hk as -> ->.
  destruct n as [| n]; cbn; [eexists; reflexivity |].
  specialize (Hset (S n) Hn). cbn in Hset.
  destruct (cap_lookup cs (S n)) as [[x y] |]; [eexists; reflexivity | contradiction].
Qed.

(** A character every successful match of [r] reads. *)
Inductive needs (icase : bool) (c : ascii) : regex -> Prop :=
| NClass p : (forall d, class_match icase p d = true -> d = c) -> needs icase c (RClass p)
| NSeqL r1 r2 : needs icase c r1 -> needs icase c (RSeq r1 r2)
| NSeqR r1 r2 : needs icase c r2 -> needs icase c (RSeq r1 r2)
| NGroup n r : needs icase c r -> needs icase c (RGroup n r)
| NRep greedy lo hi r : 1 <= lo -> needs icase c r -> needs icase c (RRep greedy lo hi r).

Lemma mtch_needs icase c s r :
  needs icase c r -> forall i cs k res, mtch icase s r i cs k = Some res -> In c s.
Proof.
  induction 1 as [p Hp | r1 r2 _ IH | r1 r2 _ IH | n r _ IH | greedy lo hi r Hlo _ IH];
    intros i cs k res H; cbn [mtch] in H.
  - destruct (nth_error s i) as [d |] eqn:E; [| discriminate].
    destruct (class_match icase p d) eqn:Ec; [| discriminate].
    rewrite <- (Hp d Ec). exact (nth_error_In _ _ E).
  - exact (IH _ _ _ _ H).
  - destruct (mtch_cont _ _ _ _ _ _ _ H) as (j & cs' & Hk & _). exact (IH _ _ _ _ Hk).
  - exact (IH _ _ _ _ H).
  - cbn in H. destruct lo as [| lo]; [lia |]. cbn in H. exact (IH _ _ _ _ H).
Qed.

Lemma search_needs icase c r text m :
  needs icase c r -> search icase r text = Some m -> In c (chars text).
Proof.
  intros Hn Hs. destruct (search_some _ _ _ _ Hs) as [i Hm]. unfold match_at in Hm.
  destruct (mtch icase (chars text) r i [] (fun j cs => Some (j, cs))) as [x |] eqn:E;
    [| discriminate].
  exact (mtch_needs _ _ _ _ Hn _ _ _ _ E).
Qed.

End RegexFacts.

Module ExtractorFacts.
Import PyStr Regex FieldExtractor.

Lemma bind_ok {A B} (m : result A) (k : A -> result B) (a : A) :
  m = Ok a -> bind m k = k a.
Proof. intros ->. reflexivity. Qed.

(** A successful body records the field name and no error. *)
Lemma body_ok_shape self text chunks fname ftype desc r :
  extract_single_field_body self text chunks fname ftype desc = Ok r ->
  field_name r = fname /\ error r = None.
Proof.
  unfold extract_single_field_body. intro H. inv_bind H.
  inversion H; subst. split; reflexivity.
Qed.

(** The per-field boundary: every record carries its field name, and is
    either a success or an error record with a null value, zero confidence
    and no citations. *)
Lemma single_field_shape self text chunks fname ftype desc :
  let r := _extract_single_field self text chunks fname ftype desc in
  field_name r = fname /\
  (error r = None \/
   (exists e, error r = Some e /\ extracted_value r = PNone /\
              confidence_score r = 0%Q /\ citations r = [])).
Proof.
  unfold _extract_single_field.
  destruct (extract_single_field_body self text chunks fname ftype desc) eqn:E.
  - apply body_ok_shape in E as [E1 E2]. split; [exact E1 | left; exact E2].
  - split; [reflexivity | right; eexists; repeat split].
Qed.

Lemma extract_fields_dicts self text chunks dicts :
  extract_fields self text chunks (map PDict dicts) =
  Ok (map (fun d => _extract_single_field self text chunks
                      (dict_get d "name" (PStr ""))
                      (dict_get d "field_type" (PStr "TEXT"))
                      (dict_get d "description" (PStr ""))) dicts).
Proof.
  induction dicts as [| d dicts IH]; [reflexivity |].
  cbn [map extract_fields py_get bind]. rewrite IH. reflexivity.
Qed.

(** The heuristic strategy never returns a null value with a raw text. *)
Lemma heuristic_loop_null text pats er :
  heuristic_loop text pats = Ok er -> rr_value er = PNone -> rr_raw_text er = PNone.
Proof.
  induction pats as [| [p b] pats IH]; cbn [heuristic_loop].
  - intro H. inversion H; subst. reflexivity.
  - destruct (search true p text) as [m |].
    + destruct (group text m _); intro H; inversion H; subst. discriminate.
    + exact IH.
Qed.

Lemma heuristics_null text fname ftype er :
  _extract_with_heuristics text fname ftype = Ok er ->
  rr_value er = PNone -> rr_raw_text er = PNone.
Proof.
  unfold _extract_with_heuristics. intro H. inv_bind H.
  eapply heuristic_loop_null; eassumption.
Qed.

Lemma py_min_1_zero (c : Q) : (py_min 1 (c * 0) == 0)%Q.
Proof.
  unfold py_min. pose proof (Qmult_0_r c) as Z0.
  destruct (Qle_bool 1 (c * 0)) eqn:E.
  - apply Qle_bool_iff in E. unfold Qle in E. simpl in E. lia.
  - exact Z0.
Qed.

(** *** The heuristic loop *)

(** The ±100-character window of [_extract_with_heuristics]; [start - 100]
    on [nat] is [max(0, start - 100)]. *)
Definition window (text : string) (m : match_obj) : string :=
  slice text (m_start m - 100) (Nat.min (String.length text) (m_end m + 100)).

Lemma heuristic_loop_first text pre p boost post m g :
  (forall q, In q pre -> search true (fst q) text = None) ->
  search true p text = Some m ->
  group text m (if 0 <? groups p then 1 else 0) = Some g ->
  heuristic_loop text (pre ++ (p, boost) :: post)%list =
  Ok {| rr_value := PStr (strip g);
        rr_raw_text := PStr (strip (window text m));
        rr_confidence := py_min 1 ((6#10) + boost)%Q |}.
Proof.
  intros Hpre Hs Hg. induction pre as [| [q bq] pre IH].
  - cbn [app heuristic_loop]. rewrite Hs, Hg. reflexivity.
  - cbn [app heuristic_loop].
    pose proof (Hpre (q, bq) (or_introl eq_refl)) as Hq. cbn [fst] in Hq. rewrite Hq.
    apply IH. intros q' Hq'. apply Hpre. right. exact Hq'.
Qed.

Lemma heuristic_loop_none text pats :
  (forall q, In q pats -> search true (fst q) text = None) ->
  heuristic_loop text pats = Ok no_result.
Proof.
  induction pats as [| [q bq] pats IH]; intro H; [reflexivity |].
  cbn [heuristic_loop].
  pose proof (H (q, bq) (or_introl eq_refl)) as Hq. cbn [fst] in Hq. rewrite Hq.
  apply IH. intros q' Hq'. apply H. right. exact Hq'.
Qed.

(** *** Citation ranking *)

Lemma insert_desc_perm x l : Permutation (insert_desc x l) (x :: l).
Proof.
  induction l as [| y l IH]; cbn [insert_desc]; [reflexivity |].
  destruct (Qle_bool (sc_similarity x) (sc_similarity y)); [| reflexivity].
  rewrite IH. apply perm_swap.
Qed.

Lemma fold_insert_perm l acc :
  Permutation (fold_left (fun acc x => insert_desc x acc) l acc) (l ++ acc).
Proof.
  revert acc. induction l as [| x l IH]; intro acc; [reflexivity |].
  cbn [fold_left]. rewrite IH, insert_desc_perm. symmetry. apply Permutation_middle.
Qed.

Lemma sort_desc_perm l : Permutation (sort_desc l) l.
Proof. unfold sort_desc. rewrite fold_insert_perm. rewrite app_nil_r. reflexivity. Qed.

Lemma firstn_in {A} n (l : list A) x : In x (firstn n l) -> In x l.
Proof.
  intro H. rewrite <- (firstn_skipn n l). apply in_or_app. left. exact H.
Qed.

Lemma take_prefix_in {A} (l : list A) k x : In x (take_prefix l k) -> In x l.
Proof. unfold take_prefix. destruct (0 <=? k)%Z; apply firstn_in. Qed.

Lemma take_prefix_length {A} (l : list A) k :
  (0 <= k)%Z -> (Z.of_nat (List.length (take_prefix l k)) <= k)%Z.
Proof.
  intro Hk. unfold take_prefix. apply Z.leb_le in Hk as Hk'. rewrite Hk'.
  pose proof (firstn_le_length (Z.to_nat k) l). lia.
Qed.

Lemma inter_le_union a b : NoDup a -> inter_size a b <= union_size a b.
Proof.
  intro Ha. unfold inter_size, union_size. apply NoDup_incl_length.
  - apply NoDup_filter. exact Ha.
  - intros t Ht. apply filter_In in Ht as [Ht _]. apply nodup_In.
    apply in_or_app. left. exact Ht.
Qed.

Lemma ratio_unit (i u : nat) :
  i <= u ->
  (0 <= (if 0 <? u then inject_Z (Z.of_nat i) / inject_Z (Z.of_nat u) else 0) <= 1)%Q.
Proof.
  intro Hiu. destruct (0 <? u) eqn:Hu.
  - apply Nat.ltb_lt in Hu.
    assert (Hpos : (0 < inject_Z (Z.of_nat u))%Q).
    { unfold Qlt. simpl. lia. }
    split.
    + apply Qle_shift_div_l; [exact Hpos |]. unfold Qle. simpl. lia.
    + apply Qle_shift_div_r; [exact Hpos |]. unfold Qle. simpl. destruct (Z.of_nat u) eqn:Ez; lia.
  - split; discriminate.
Qed.

Lemma boost_unit (s : Q) :
  (0 <= s <= 1)%Q -> (0 <= py_min 1 (s + (3#10)) <= 1)%Q.
Proof.
  intros [H0 H1]. unfold py_min. destruct (Qle_bool 1 (s + (3#10))) eqn:E.
  - split; discriminate.
  - assert (Hn : ~ (1 <= s + (3#10))%Q).
    { intro Hle. apply Qle_bool_iff in Hle. congruence. }
    apply Qnot_le_lt in Hn. split.
    + apply (Qle_trans _ (0 + 0)); [discriminate |].
      apply Qplus_le_compat; [exact H0 | discriminate].
    + apply Qlt_le_weak. exact Hn.
Qed.

Lemma score_chunk_ok q i c sc :
  score_chunk q i c = Ok sc ->
  exists d, c = PDict d /\
    sc_page sc = dict_get d "page_number" (PNum 1) /\
    sc_section sc = dict_get d "section" (PStr "Main") /\
    sc_chunk_id sc = of_nat i /\
    (0 <= sc_similarity sc <= 1)%Q.
Proof.
  unfold score_chunk. destruct c; cbn [py_get bind]; try discriminate.
  destruct (dict_get d "text" (PStr "")) as [| | | t | |]; try discriminate.
  cbn [bind]. intro H. inversion H; subst sc. exists d. cbn.
  repeat split; try reflexivity.
  - destruct (contains (lower t) (lower q)).
    + apply boost_unit, ratio_unit, inter_le_union, NoDup_nodup.
    + apply ratio_unit, inter_le_union, NoDup_nodup.
  - destruct (contains (lower t) (lower q)).
    + apply boost_unit, ratio_unit, inter_le_union, NoDup_nodup.
    + apply ratio_unit, inter_le_union, NoDup_nodup.
Qed.

Lemma score_chunks_in q i chunks scs :
  score_chunks q i chunks = Ok scs ->
  forall sc, In sc scs ->
    exists k c, nth_error chunks k = Some c /\ score_chunk q (i + k) c = Ok sc.
Proof.
  revert i scs. induction chunks as [| c chunks IH]; intros i scs H sc Hin.
  - cbn in H. inversion H; subst. destruct Hin.
  - cbn [score_chunks] in H.
    destruct (score_chunk q i c) as [sc0 |] eqn:E0; cbn [bind] in H; [| discriminate].
    destruct (score_chunks q (S i) chunks) as [rest |] eqn:E1; cbn [bind] in H;
      [| discriminate].
    inversion H; subst scs. destruct Hin as [<- | Hin].
    + exists 0, c. rewrite Nat.add_0_r. split; [reflexivity | exact E0].
    + destruct (IH (S i) rest E1 sc Hin) as (k & c' & Hk & Hs).
      exists (S k), c'. split; [exact Hk |]. rewrite <- Nat.add_succ_comm. exact Hs.
Qed.

(** Every citation comes from a scored chunk of the input, kept by the
    [top_k] slice and the [> 0.0] filter. *)
Lemma find_citations_in q chunks k cits :
  _find_citations q chunks k = Ok cits ->
  forall c, In c cits ->
    exists s scs, q = PStr s /\ score_chunks s 0 chunks = Ok scs /\
      exists sc, In sc scs /\ In sc (take_prefix (sort_desc scs) k) /\
        negb (Qle_bool (sc_similarity sc) 0) = true /\ c = to_citation sc.
Proof.
  unfold _find_citations. destruct (truthy q); cbn [negb].
  2:{ intro H. inversion H; subst. intros c []. }
  destruct q as [| | | s | |]; try discriminate.
  destruct (score_chunks s 0 chunks) as [scs |] eqn:E; cbn [bind]; [| discriminate].
  intro H. inversion H; subst cits. intros c Hc.
  apply in_map_iff in Hc as (sc & <- & Hsc). apply filter_In in Hsc as [Hin Hpos].
  exists s, scs. split; [reflexivity | split; [exact E |]].
  exists sc. split; [| split; [exact Hin | split; [exact Hpos | reflexivity]]].
  apply take_prefix_in in Hin. eapply Permutation_in; [apply sort_desc_perm | exact Hin].
Qed.

Lemma dict_get_absent d key default :
  ~ In key (map fst d) -> dict_get d key default = default.
Proof.
  induction d as [| [k v] d IH]; intro H; [reflexivity |].
  cbn [dict_get]. destruct (String.eqb k key) eqn:E.
  - apply String.eqb_eq in E. subst. exfalso. apply H. left. reflexivity.
  - apply IH. intro H'. apply H. right. exact H'.
Qed.

(** Every [relevance_score] lies in [0,1]. *)
Lemma citation_relevance_unit q chunks k cits :
  _find_citations q chunks k = Ok cits ->
  forall c, In c cits -> (0 <= relevance_score c <= 1)%Q.
Proof.
  intros H c Hc.
  destruct (find_citations_in q chunks k cits H c Hc)
    as (s & scs & -> & Hs & sc & Hin & _ & _ & ->).
  destruct (score_chunks_in s 0 chunks scs Hs sc Hin) as (i & ch & _ & Hsc).
  destruct (score_chunk_ok s (0 + i) ch sc Hsc) as (d & _ & _ & _ & _ & Hu).
  exact Hu.
Qed.

End ExtractorFacts.

Module MatcherFacts.
Import SequenceMatcher.

Section Bounds.
Variables (a b : list ascii) (alo ahi blo bhi : nat).

(** A block [(i, j, k)] inside [a[alo:ahi]] and [b[blo:bhi]]. *)
Definition inb (t : nat * nat * nat) : Prop :=
  let '(i, j, k) := t in alo <= i /\ i + k <= ahi /\ blo <= j /\ j + k <= bhi.

(** The [j2len] table of row [i]: run lengths ending at [(i - 1, j)]. *)
Definition j2len_ok (i : nat) (l : list (nat * nat)) : Prop :=
  forall j v, In (j, v) l -> blo <= j /\ v <= i - alo /\ v <= j + 1 - blo.

Lemma j2len_get_cases l j : j2len_get l j = 0 \/ In (j, j2len_get l j) l.
Proof.
  induction l as [| [j' v] l IH]; [left; reflexivity |].
  cbn [j2len_get]. destruct (j' =? j) eqn:E.
  - right. apply Nat.eqb_eq in E. subst. left. reflexivity.
  - destruct IH as [H | H]; [left; exact H | right; right; exact H].
Qed.

Lemma inner_loop_bounds i js j2len newj2len best :
  alo <= i < ahi -> j2len_ok i j2len -> j2len_ok (S i) newj2len -> inb best ->
  j2len_ok (S i) (fst (inner_loop blo bhi i js j2len newj2len best)) /\
  inb (snd (inner_loop blo bhi i js j2len newj2len best)).
Proof.
  intros Hi Hj. revert newj2len best.
  induction js as [| j js IH]; intros newj2len best Hn Hb; cbn [inner_loop];
    [split; assumption |].
  destruct (j <? blo) eqn:E1; [apply IH; assumption |].
  destruct (bhi <=? j) eqn:E2; [split; assumption |].
  apply Nat.ltb_ge in E1. apply Nat.leb_gt in E2.
  set (k := match j with O => 0 | S j1 => j2len_get j2len j1 end + 1).
  assert (Hk : k <= S i - alo /\ k <= j + 1 - blo).
  { subst k. destruct j as [| j1]; [lia |].
    destruct (j2len_get_cases j2len j1) as [H0 | H0]; [rewrite H0; lia |].
    destruct (Hj j1 _ H0) as (H1 & H2 & H3). lia. }
  destruct best as [[bi bj] bs].
  apply IH.
  - intros j' v [Heq | Hin]; [injection Heq as <- <-; lia | exact (Hn j' v Hin)].
  - destruct (bs <? k) eqn:E3; [cbn; lia | exact Hb].
Qed.

Lemma outer_loop_bounds n i0 j2len best :
  alo <= i0 -> i0 + n <= ahi -> j2len_ok i0 j2len -> inb best ->
  inb (outer_loop a b blo bhi (seq i0 n) j2len best).
Proof.
  revert i0 j2len best. induction n as [| n IH]; intros i0 j2len best H1 H2 Hj Hb;
    [exact Hb |].
  cbn [seq outer_loop].
  pose proof (inner_loop_bounds i0 (b2j_get b (at_ a i0)) j2len [] best) as Hin.
  destruct (inner_loop blo bhi i0 (b2j_get b (at_ a i0)) j2len [] best) as [nj best'].
  destruct Hin as [Hn Hb']; [lia | exact Hj | intros j v [] | exact Hb |].
  apply IH; [lia | lia | exact Hn | exact Hb'].
Qed.

Lemma extend_back_bounds junk fuel best :
  inb best -> inb (extend_back a b junk alo blo fuel best).
Proof.
  revert best. induction fuel as [| f IH]; intros [[bi bj] bs] Hb; [exact Hb |].
  cbn [extend_back].
  destruct ((alo <? bi) && (blo <? bj) && _ && _) eqn:E; [| exact Hb].
  apply andb_prop in E as [E _]. apply andb_prop in E as [E _].
  apply andb_prop in E as [E1 E2]. apply Nat.ltb_lt in E1, E2.
  apply IH. cbn in *. lia.
Qed.

Lemma extend_fwd_bounds junk fuel best :
  inb best -> inb (extend_fwd a b junk ahi bhi fuel best).
Proof.
  revert best. induction fuel as [| f IH]; intros [[bi bj] bs] Hb; [exact Hb |].
  cbn [extend_fwd].
  destruct ((bi + bs <? ahi) && (bj + bs <? bhi) && _ && _) eqn:E; [| exact Hb].
  apply andb_prop in E as [E _]. apply andb_prop in E as [E _].
  apply andb_prop in E as [E1 E2]. apply Nat.ltb_lt in E1, E2.
  apply IH. cbn in *. lia.
Qed.

Lemma find_longest_match_bounds :
  alo <= ahi -> blo <= bhi -> inb (find_longest_match a b alo ahi blo bhi).
Proof.
  intros H1 H2. unfold find_longest_match.
  apply extend_fwd_bounds, extend_back_bounds, extend_fwd_bounds, extend_back_bounds.
  apply outer_loop_bounds; [lia | lia | intros j v [] | cbn; lia].
Qed.

End Bounds.

Definition bsum (l : list (nat * nat * nat)) : nat :=
  fold_right (fun '(_, _, k) acc => k + acc) 0 l.

Lemma bsum_app l1 l2 : bsum (l1 ++ l2) = bsum l1 + bsum l2.
Proof.
  induction l1 as [| [[i j] k] l1 IH]; [reflexivity |].
  cbn [app]. unfold bsum in *. cbn [fold_right]. rewrite IH. lia.
Qed.

(** The blocks found in [a[alo:ahi]] and [b[blo:bhi]] cover at most
    [ahi - alo] and [bhi - blo] elements. *)
Lemma matching_blocks_bound a b fuel alo ahi blo bhi :
  alo <= ahi -> blo <= bhi ->
  bsum (matching_blocks a b fuel alo ahi blo bhi) <= ahi - alo /\
  bsum (matching_blocks a b fuel alo ahi blo bhi) <= bhi - blo.
Proof.
  revert alo ahi blo bhi.
  induction fuel as [| f IH]; intros alo ahi blo bhi H1 H2; [cbn; lia |].
  cbn [matching_blocks].
  pose proof (find_longest_match_bounds a b alo ahi blo bhi H1 H2) as Hb.
  destruct (find_longest_match a b alo ahi blo bhi) as [[i j] k].
  cbn in Hb. destruct (k =? 0); [cbn; lia |].
  change (bsum ((i, j, k) :: ?l)) with (k + bsum l). rewrite bsum_app.
  destruct ((alo <? i) && (blo <? j)) eqn:EL.
  - apply andb_prop in EL as [EL1 EL2]. apply Nat.ltb_lt in EL1, EL2.
    destruct (IH alo i blo j) as [L1 L2]; [lia | lia |].
    destruct ((i + k <? ahi) && (j + k <? bhi)) eqn:ER.
    + apply andb_prop in ER as [ER1 ER2]. apply Nat.ltb_lt in ER1, ER2.
      destruct (IH (i + k) ahi (j + k) bhi) as [R1 R2]; [lia | lia |]. lia.
    + cbn [bsum fold_right]. lia.
  - destruct ((i + k <? ahi) && (j + k <? bhi)) eqn:ER.
    + apply andb_prop in ER as [ER1 ER2]. apply Nat.ltb_lt in ER1, ER2.
      destruct (IH (i + k) ahi (j + k) bhi) as [R1 R2]; [lia | lia |].
      cbn [bsum fold_right]. lia.
    + cbn [bsum fold_right]. lia.
Qed.

Lemma sm_ratio_unit a b : (0 <= ratio a b <= 1)%Q.
Proof.
  unfold ratio, matches, get_matching_blocks.
  destruct (matching_blocks_bound a b (S (List.length a)) 0 (List.length a) 0
              (List.length b)) as [M1 M2]; [lia | lia |].
  fold (bsum (matching_blocks a b (S (List.length a)) 0 (List.length a) 0 (List.length b))).
  set (m := bsum _) in *.
  destruct (List.length a + List.length b =? 0) eqn:E; [split; discriminate |].
  apply Nat.eqb_neq in E.
  assert (Hpos : (0 < inject_Z (Z.of_nat (List.length a + List.length b)))%Q).
  { unfold Qlt. simpl. lia. }
  split.
  - apply Qle_shift_div_l; [exact Hpos |]. unfold Qle. simpl.
    assert (Hm : (0 <= Z.of_nat m)%Z) by lia.
    destruct (Z.of_nat m); lia.
  - apply Qle_shift_div_r; [exact Hpos |]. unfold Qle. simpl.
    assert (Hm : (Z.of_nat m * 2 <= Z.of_nat (List.length a + List.length b))%Z) by lia.
    destruct (Z.of_nat m), (Z.of_nat (List.length a + List.length b)); lia.
Qed.

End MatcherFacts.

Module ScoreFacts.
Import PyStr Orchestrator.

Lemma opt_eqb_sym x y : opt_eqb x y = opt_eqb y x.
Proof.
  destruct x as [s |], y as [t |]; cbn; try reflexivity. apply String.eqb_sym.
Qed.

Lemma opt_eqb_refl x : opt_eqb x x = true.
Proof. destruct x as [s |]; cbn; [apply String.eqb_refl | reflexivity]. Qed.

Lemma match_score_unit x y : (0 <= _calculate_match_score x y <= 1)%Q.
Proof.
  unfold _calculate_match_score.
  destruct (negb (opt_truthy x) || negb (opt_truthy y)).
  - destruct (negb (opt_eqb x y)); split; discriminate.
  - destruct (String.eqb _ _); [split; discriminate |].
    apply MatcherFacts.sm_ratio_unit.
Qed.

End ScoreFacts.

Module TableFacts.
Import Orchestrator.

Section Dicts.
Context {A : Type}.

Lemma lookup_dict_set (d : list (string * A)) k v k' :
  lookup (dict_set d k v) k' = if String.eqb k k' then Some v else lookup d k'.
Proof.
  induction d as [| [k0 v0] d IH]; cbn; [reflexivity |].
  destruct (String.eqb_spec k0 k) as [-> | Hne]; cbn.
  - destruct (String.eqb k k'); reflexivity.
  - rewrite IH. destruct (String.eqb_spec k k') as [Heq | Hne'].
    + subst k'. destruct (String.eqb_spec k0 k); [contradiction | reflexivity].
    + reflexivity.
Qed.

Lemma keys_dict_set_in (d : list (string * A)) k v :
  In k (map fst d) -> map fst (dict_set d k v) = map fst d.
Proof.
  induction d as [| [k0 v0] d IH]; cbn; [intros [] |].
  intros Hin. destruct (String.eqb_spec k0 k) as [-> | Hne]; cbn; [reflexivity |].
  f_equal. apply IH. destruct Hin as [-> | Hin]; [contradiction | exact Hin].
Qed.

Lemma keys_dict_set_notin (d : list (string * A)) k v :
  ~ In k (map fst d) -> map fst (dict_set d k v) = (map fst d ++ [k])%list.
Proof.
  induction d as [| [k0 v0] d IH]; cbn; [reflexivity |].
  intros Hn. destruct (String.eqb_spec k0 k) as [-> | Hne]; [exfalso; apply Hn; left; reflexivity |].
  cbn. f_equal. apply IH. intros H. apply Hn. right. exact H.
Qed.

Lemma keys_dict_set_iff (d : list (string * A)) k v x :
  In x (map fst (dict_set d k v)) <-> x = k \/ In x (map fst d).
Proof.
  destruct (in_dec String.string_dec k (map fst d)) as [Hk | Hk].
  - rewrite keys_dict_set_in by exact Hk. split; [intros H; right; exact H |].
    intros [-> | H]; assumption.
  - rewrite keys_dict_set_notin by exact Hk. rewrite in_app_iff. cbn.
    split; [intros [H | [H | []]]; [right; exact H | left; symmetry; exact H] |].
    intros [H | H]; [right; left; symmetry; exact H | left; exact H].
Qed.

Lemma nodup_dict_set (d : list (string * A)) k v :
  NoDup (map fst d) -> NoDup (map fst (dict_set d k v)).
Proof.
  intros Hd. destruct (in_dec String.string_dec k (map fst d)) as [Hk | Hk].
  - rewrite keys_dict_set_in by exact Hk. exact Hd.
  - rewrite keys_dict_set_notin by exact Hk.
    apply (Permutation_NoDup (Permutation_cons_append (map fst d) k)).
    constructor; assumption.
Qed.

Lemma lookup_none_iff (d : list (string * A)) k :
  lookup d k = None <-> ~ In k (map fst d).
Proof.
  induction d as [| [k0 v0] d IH]; cbn; [tauto |].
  destruct (String.eqb_spec k0 k) as [-> | Hne].
  - split; [discriminate | intros H; exfalso; apply H; left; reflexivity].
  - rewrite IH. split; intros H; [intros [H' | H']; [contradiction | tauto] | tauto].
Qed.

Lemma lookup_in (d : list (string * A)) k v :
  NoDup (map fst d) -> In (k, v) d -> lookup d k = Some v.
Proof.
  induction d as [| [k0 v0] d IH]; cbn; [intros _ [] |].
  intros Hnd Hin. inversion Hnd as [| ? ? Hn Hnd']; subst.
  destruct Hin as [Heq | Hin].
  - injection Heq as -> ->. rewrite String.eqb_refl. reflexivity.
  - destruct (String.eqb_spec k0 k) as [-> | Hne]; [| apply IH; assumption].
    exfalso. apply Hn. apply (in_map fst) in Hin. exact Hin.
Qed.

Lemma lookup_some_in (d : list (string * A)) k v :
  lookup d k = Some v -> In (k, v) d.
Proof.
  induction d as [| [k0 v0] d IH]; cbn; [discriminate |].
  destruct (String.eqb_spec k0 k) as [-> | Hne].
  - intros H. injection H as ->. left. reflexivity.
  - intros H. right. apply IH. exact H.
Qed.

Lemma in_dict_set (d : list (string * A)) k v n g :
  NoDup (map fst d) -> In (n, g) (dict_set d k v) ->
  (n = k /\ g = v) \/ (n <> k /\ In (n, g) d).
Proof.
  induction d as [| [k0 v0] d IH]; cbn.
  - intros _ [H | []]. injection H as -> ->. left. split; reflexivity.
  - intros Hnd. inversion Hnd as [| ? ? Hn Hnd']; subst.
    destruct (String.eqb_spec k0 k) as [-> | Hne].
    + intros [H | H]; [injection H as -> ->; left; split; reflexivity |].
      right. split; [| right; exact H].
      intros ->. apply Hn. apply (in_map fst) in H. exact H.
    + intros [H | H].
      * injection H as -> ->. right. split; [exact Hne | left; reflexivity].
      * destruct (IH Hnd' H) as [H' | [H1 H2]]; [left; exact H' |].
        right. split; [exact H1 | right; exact H2].
Qed.

End Dicts.

(** The cell the comprehension computes for a document id. *)
Definition cellfor (g : field_group) (k : string) : cell :=
  match lookup (g_results g) k with Some r => CellResult r | None => CellNA end.

Lemma row_cells_fold g docs acc k :
  lookup (fold_left (fun d doc => dict_set d (doc_id doc) (cellfor g (doc_id doc))) docs acc) k =
  if existsb (fun doc => String.eqb (doc_id doc) k) docs then Some (cellfor g k)
  else lookup acc k.
Proof.
  revert acc. induction docs as [| doc docs IH]; intros acc; cbn; [reflexivity |].
  rewrite IH, lookup_dict_set.
  destruct (String.eqb_spec (doc_id doc) k) as [-> | Hne]; cbn;
    destruct (existsb _ docs); reflexivity.
Qed.

Lemma row_cells_keys g docs acc x :
  In x (map fst (fold_left (fun d doc => dict_set d (doc_id doc) (cellfor g (doc_id doc))) docs acc)) <->
  In x (map fst acc) \/ In x (map doc_id docs).
Proof.
  revert acc. induction docs as [| doc docs IH]; intros acc; cbn; [tauto |].
  rewrite IH, keys_dict_set_iff. split; intros H; intuition (subst; auto).
Qed.

Lemma row_cells_nodup g docs acc :
  NoDup (map fst acc) ->
  NoDup (map fst (fold_left (fun d doc => dict_set d (doc_id doc) (cellfor g (doc_id doc))) docs acc)).
Proof.
  revert acc. induction docs as [| doc docs IH]; intros acc H; cbn; [exact H |].
  apply IH, nodup_dict_set, H.
Qed.

(** Some extraction of [P] records field [n] of document [k]. *)
Definition has_pair (P : list extraction) (k n : string) : Prop :=
  exists e, In e P /\ ex_document_id e = k /\ ex_field_name e = n.

Definition has_field (P : list extraction) (n : string) : Prop :=
  exists e, In e P /\ ex_field_name e = n.

(** The grouping dictionary after the extractions [P]. *)
Definition groups_ok (acc : list (string * field_group)) (P : list extraction) : Prop :=
  NoDup (map fst acc) /\
  (forall n g, In (n, g) acc ->
     g_field_name g = n /\
     forall k, lookup (g_results g) k = None <-> ~ has_pair P k n) /\
  (forall n, ~ In n (map fst acc) -> ~ has_field P n).

Lemma groups_ok_nil : groups_ok [] [].
Proof.
  split; [constructor |]. split; [intros n g [] |].
  intros n _ [e [[] _]].
Qed.

Lemma group_step_ok acc P e :
  groups_ok acc P -> groups_ok (group_step acc e) (P ++ [e])%list.
Proof.
  intros (Hnd & Hg & Hf). unfold group_step.
  set (n := ex_field_name e).
  (* the dictionary after the [if field_name not in field_groups] step *)
  set (acc1 := match lookup acc n with
               | Some _ => acc
               | None => dict_set acc n {| g_field_name := n; g_field_type := ex_field_type e;
                                          g_results := [] |}
               end).
  assert (H1 : groups_ok acc1 P /\ exists g0, lookup acc1 n = Some g0 /\ In (n, g0) acc1).
  { subst acc1. destruct (lookup acc n) as [g0 |] eqn:E.
    - split; [split; [exact Hnd | split; assumption] |].
      exists g0. split; [exact E | apply lookup_some_in; exact E].
    - apply lookup_none_iff in E.
      set (gn := {| g_field_name := n; g_field_type := ex_field_type e; g_results := [] |}).
      assert (Hin : In (n, gn) (dict_set acc n gn)).
      { apply lookup_some_in. rewrite lookup_dict_set, String.eqb_refl. reflexivity. }
      split; [| exists gn; split; [apply lookup_in; [apply nodup_dict_set, Hnd | exact Hin] | exact Hin]].
      split; [apply nodup_dict_set, Hnd |]. split.
      + intros n' g Hng. destruct (in_dict_set acc n gn n' g Hnd Hng) as [[-> ->] | [_ H]].
        * split; [reflexivity |]. intros k. cbn. split; [| reflexivity].
          intros _ [e' (He' & _ & Hn')]. apply (Hf n E). exists e'. split; assumption.
        * apply Hg. exact H.
      + intros n' Hn'. apply Hf. intros H. apply Hn'. apply keys_dict_set_iff. right. exact H. }
  destruct H1 as [(Hnd1 & Hg1 & Hf1) [g0 [Hl0 Hin0]]].
  change (match lookup acc1 n with
          | Some g => dict_set acc1 n {| g_field_name := g_field_name g; g_field_type := g_field_type g;
                        g_results := dict_set (g_results g) (ex_document_id e) (summary e) |}
          | None => acc1
          end) with
    (match lookup acc1 n with
     | Some g => dict_set acc1 n {| g_field_name := g_field_name g; g_field_type := g_field_type g;
                   g_results := dict_set (g_results g) (ex_document_id e) (summary e) |}
     | None => acc1
     end).
  rewrite Hl0. destruct (Hg1 n g0 Hin0) as [Hname0 Hres0].
  split; [apply nodup_dict_set, Hnd1 |]. split.
  - intros n' g Hng. destruct (in_dict_set acc1 _ _ n' g Hnd1 Hng) as [[-> ->] | [Hne H]].
    + cbn. split; [exact Hname0 |]. intros k. rewrite lookup_dict_set.
      destruct (String.eqb_spec (ex_document_id e) k) as [<- | Hne].
      * split; [discriminate |]. intros H. exfalso. apply H.
        exists e. split; [apply in_or_app; right; left; reflexivity | split; reflexivity].
      * rewrite Hres0. split; intros H [e' (He' & Hk & Hn')]; apply H.
        -- apply in_app_or in He'. destruct He' as [He' | [<- | []]];
             [exists e'; split; [exact He' | split; assumption] | contradiction].
        -- exists e'. split; [apply in_or_app; left; exact He' | split; assumption].
    + destruct (Hg1 n' g H) as [Hname Hres]. split; [exact Hname |].
      intros k. rewrite Hres. split; intros H' [e' (He' & Hk & Hn')]; apply H'.
      * apply in_app_or in He'. destruct He' as [He' | [<- | []]];
          [exists e'; split; [exact He' | split; assumption] | exfalso; apply Hne; symmetry; exact Hn'].
      * exists e'. split; [apply in_or_app; left; exact He' | split; assumption].
  - intros n' Hn' [e' (He' & Hn'e)].
    assert (Hk : n' <> n /\ ~ In n' (map fst acc1)).
    { split; intros H; apply Hn', keys_dict_set_iff; [left | right]; exact H. }
    destruct Hk as [Hne Hk]. apply in_app_or in He'.
    destruct He' as [He' | [<- | []]].
    + apply (Hf1 n' Hk). exists e'. split; assumption.
    + apply Hne. symmetry. exact Hn'e.
Qed.

Lemma fold_groups_ok exs acc P :
  groups_ok acc P -> groups_ok (fold_left group_step exs acc) (P ++ exs)%list.
Proof.
  revert acc P. induction exs as [| e exs IH]; intros acc P H; cbn.
  - rewrite app_nil_r. exact H.
  - replace (P ++ e :: exs)%list with ((P ++ [e]) ++ exs)%list
      by (rewrite <- app_assoc; reflexivity).
    apply IH, group_step_ok, H.
Qed.

Lemma group_extractions_ok exs : groups_ok (group_extractions exs) exs.
Proof. apply (fold_groups_ok exs [] []), groups_ok_nil. Qed.

Lemma row_cells_eq docs g :
  row_cells docs g =
  fold_left (fun d doc => dict_set d (doc_id doc) (cellfor g (doc_id doc))) docs [].
Proof. reflexivity. Qed.

Lemma existsb_doc_in docs d :
  In d docs -> existsb (fun doc => String.eqb (doc_id doc) (doc_id d)) docs = true.
Proof.
  intros H. apply existsb_exists. exists d. split; [exact H | apply String.eqb_refl].
Qed.

(** Each row of a non-degenerate table: one key per document id, and the
    cell the comprehension computes for it. *)
Lemma table_row docs exs row :
  In row (generate_comparison_table docs exs) ->
  NoDup (map fst (document_results row)) /\
  (forall k, In k (map fst (document_results row)) -> In k (map doc_id docs)) /\
  forall d, In d docs ->
    exists c, lookup (document_results row) (doc_id d) = Some c /\
      (c = CellNA <-> ~ has_pair exs (doc_id d) (row_field_name row)).
Proof.
  intros Hrow.
  assert (Hmap : In row (map (fun '(_, g) => make_row docs g) (group_extractions exs))).
  { unfold generate_comparison_table in Hrow. destruct docs, exs; try contradiction. exact Hrow. }
  apply in_map_iff in Hmap. destruct Hmap as [[n g] [<- Hin]].
  destruct (group_extractions_ok exs) as (_ & Hg & _).
  destruct (Hg n g Hin) as [Hname Hres].
  unfold make_row. cbn [document_results row_field_name]. rewrite row_cells_eq.
  split; [apply row_cells_nodup; constructor |]. split.
  - intros k Hk. apply row_cells_keys in Hk. destruct Hk as [[] | Hk]. exact Hk.
  - intros d Hd. exists (cellfor g (doc_id d)). split.
    + rewrite row_cells_fold, existsb_doc_in by exact Hd. reflexivity.
    + rewrite Hname, <- Hres. unfold cellfor.
      destruct (lookup (g_results g) (doc_id d)); split; congruence.
Qed.

End TableFacts.

Module CitationFacts.
Import PyStr Regex FieldExtractor ExtractorFacts.

Definition ranked_before (x y : scored_chunk) : Prop :=
  (sc_similarity y <= sc_similarity x)%Q.

Lemma insert_desc_sorted x l :
  StronglySorted ranked_before l -> StronglySorted ranked_before (insert_desc x l).
Proof.
  induction l as [| y l IH]; intro H; cbn [insert_desc].
  - repeat constructor.
  - apply StronglySorted_inv in H as [Hl Hy].
    destruct (Qle_bool (sc_similarity x) (sc_similarity y)) eqn:E.
    + constructor; [apply IH; exact Hl |].
      apply Forall_forall. intros z Hz.
      apply (Permutation_in _ (insert_desc_perm x l)) in Hz as [<- | Hz].
      * apply Qle_bool_iff. exact E.
      * rewrite Forall_forall in Hy. apply Hy. exact Hz.
    + assert (Hxy : ranked_before x y).
      { unfold ranked_before. apply Qlt_le_weak, Qnot_le_lt.
        intro Hle. apply Qle_bool_iff in Hle. congruence. }
      constructor; [constructor; assumption |].
      constructor; [exact Hxy |].
      rewrite Forall_forall in Hy |- *. intros z Hz.
      unfold ranked_before in *. eapply Qle_trans; [apply Hy; exact Hz | exact Hxy].
Qed.

Lemma sort_desc_sorted l : StronglySorted ranked_before (sort_desc l).
Proof.
  unfold sort_desc.
  assert (G : forall acc, StronglySorted ranked_before acc ->
            StronglySorted ranked_before (fold_left (fun acc x => insert_desc x acc) l acc)).
  { induction l as [| x l IH]; intros acc Hacc; [exact Hacc |].
    cbn [fold_left]. apply IH, insert_desc_sorted, Hacc. }
  apply G. constructor.
Qed.

Lemma sorted_firstn {A} (R : A -> A -> Prop) n l :
  StronglySorted R l -> StronglySorted R (firstn n l).
Proof.
  revert l. induction n as [| n IH]; intros l H; [constructor |].
  destruct l as [| x l]; [constructor |]. cbn [firstn].
  apply StronglySorted_inv in H as [Hl Hx]. constructor; [apply IH, Hl |].
  rewrite Forall_forall in Hx |- *. intros z Hz. apply Hx. eapply firstn_in. exact Hz.
Qed.

Lemma sorted_take_prefix {A} (R : A -> A -> Prop) l k :
  StronglySorted R l -> StronglySorted R (take_prefix l k).
Proof. unfold take_prefix. destruct (0 <=? k)%Z; apply sorted_firstn. Qed.

Lemma sorted_filter {A} (R : A -> A -> Prop) p l :
  StronglySorted R l -> StronglySorted R (filter p l).
Proof.
  induction l as [| x l IH]; intro H; [constructor |].
  apply StronglySorted_inv in H as [Hl Hx]. cbn [filter].
  destruct (p x); [| apply IH, Hl].
  constructor; [apply IH, Hl |].
  rewrite Forall_forall in Hx |- *. intros z Hz. apply filter_In in Hz as [Hz _].
  apply Hx, Hz.
Qed.

Lemma sorted_map {A B} (R : A -> A -> Prop) (R' : B -> B -> Prop) (f : A -> B) l :
  (forall x y, R x y -> R' (f x) (f y)) ->
  StronglySorted R l -> StronglySorted R' (map f l).
Proof.
  intro Hf. induction l as [| x l IH]; intro H; [constructor |].
  apply StronglySorted_inv in H as [Hl Hx]. cbn [map]. constructor; [apply IH, Hl |].
  rewrite Forall_forall in Hx |- *. intros z Hz. apply in_map_iff in Hz as (y & <- & Hy).
  apply Hf, Hx, Hy.
Qed.

Lemma sorted_nth {A} (R : A -> A -> Prop) l :
  StronglySorted R l ->
  forall i j x y, i < j -> nth_error l i = Some x -> nth_error l j = Some y -> R x y.
Proof.
  induction l as [| z l IH]; intros H i j x y Hij Hi Hj; [destruct i; discriminate |].
  apply StronglySorted_inv in H as [Hl Hz].
  destruct i as [| i], j as [| j]; try lia.
  - injection Hi as <-. rewrite Forall_forall in Hz. apply Hz.
    eapply nth_error_In. exact Hj.
  - apply (IH Hl i j); [lia | exact Hi | exact Hj].
Qed.

(** [str(i)] is injective. *)
Lemma of_nat_inj n m : of_nat n = of_nat m -> n = m.
Proof.
  unfold of_nat. intro H.
  apply (f_equal NilEmpty.uint_of_string) in H. rewrite !NilEmpty.usu in H.
  injection H as H. apply DecimalNat.Unsigned.to_uint_inj. exact H.
Qed.

Lemma score_chunks_ids q i chunks scs :
  score_chunks q i chunks = Ok scs ->
  map sc_chunk_id scs = map of_nat (List.seq i (List.length chunks)).
Proof.
  revert i scs. induction chunks as [| c chunks IH]; intros i scs H.
  - cbn in H. inversion H; subst. reflexivity.
  - cbn [score_chunks] in H.
    destruct (score_chunk q i c) as [sc0 |] eqn:E0; cbn [bind] in H; [| discriminate].
    destruct (score_chunks q (S i) chunks) as [rest |] eqn:E1; cbn [bind] in H;
      [| discriminate].
    inversion H; subst scs. cbn [map List.length List.seq]. rewrite (IH (S i) rest E1).
    destruct (score_chunk_ok q i c sc0 E0) as (d & _ & _ & _ & Hid & _).
    rewrite Hid. reflexivity.
Qed.

Lemma nodup_map_of_nat l : NoDup l -> NoDup (map of_nat l).
Proof.
  induction l as [| n l IH]; intro H; [constructor |].
  apply NoDup_cons_iff in H as [Hn Hl]. cbn [map]. constructor; [| apply IH, Hl].
  intro Hin. apply in_map_iff in Hin as (m & Hm & Hin).
  apply of_nat_inj in Hm. subst m. contradiction.
Qed.

Lemma nodup_map_firstn {A B} (f : A -> B) n l :
  NoDup (map f l) -> NoDup (map f (firstn n l)).
Proof.
  intro H. rewrite <- (firstn_skipn n l), map_app in H.
  eapply NoDup_app_remove_r. exact H.
Qed.

Lemma nodup_map_filter {A B} (f : A -> B) p l :
  NoDup (map f l) -> NoDup (map f (filter p l)).
Proof.
  induction l as [| x l IH]; intro H; [constructor |].
  cbn [map] in H. apply NoDup_cons_iff in H as [Hx Hl]. cbn [filter].
  destruct (p x); [| apply IH, Hl].
  cbn [map]. constructor; [| apply IH, Hl].
  intro Hin. apply Hx. apply in_map_iff in Hin as (y & Hy & Hin).
  apply filter_In in Hin as [Hin _]. rewrite <- Hy. apply in_map, Hin.
Qed.

Lemma length_of_chars l : String.length (of_chars l) = List.length l.
Proof. unfold of_chars. induction l as [| c l IH]; [reflexivity | cbn; rewrite IH; reflexivity]. Qed.

Lemma slice_length s a b : String.length (slice s a b) <= b - a.
Proof. unfold slice. rewrite length_of_chars. apply firstn_le_length. Qed.

End CitationFacts.

Module ConfidenceFacts.
Import PyStr Regex FieldExtractor ExtractorFacts.

Definition unit_q (x : Q) : Prop := (0 <= x <= 1)%Q.

Lemma py_min_unit (x : Q) : (0 <= x)%Q -> unit_q (py_min 1 x).
Proof.
  intro H. unfold unit_q, py_min. destruct (Qle_bool 1 x) eqn:E.
  - split; discriminate.
  - split; [exact H |]. apply Qlt_le_weak, Qnot_le_lt.
    intro Hle. apply Qle_bool_iff in Hle. congruence.
Qed.

Lemma patterns_boost_nonneg name ftype pats :
  _get_patterns_for_field name ftype = Ok pats ->
  forall pb, In pb pats -> (0 <= snd pb)%Q.
Proof.
  unfold _get_patterns_for_field. destruct name; try discriminate.
  intro H. injection H as <-. intros pb Hin.
  repeat match type of Hin with
  | context [if ?c then _ else _] => destruct c
  end;
  cbn [app] in Hin; repeat (destruct Hin as [<- | Hin]; [cbn [snd]; discriminate |]);
  destruct Hin.
Qed.

Lemma heuristic_loop_unit text pats r :
  (forall pb, In pb pats -> (0 <= snd pb)%Q) ->
  heuristic_loop text pats = Ok r -> unit_q (rr_confidence r).
Proof.
  induction pats as [| [p b] pats IH]; intros Hb H; cbn [heuristic_loop] in H.
  - inversion H; subst. split; discriminate.
  - destruct (search true p text) as [m |].
    + destruct (group text m _); inversion H; subst. cbn [rr_confidence].
      apply py_min_unit. apply (Qle_trans _ (0 + 0)); [discriminate |].
      apply Qplus_le_compat; [discriminate |]. exact (Hb (p, b) (or_introl eq_refl)).
    + apply IH; [| exact H]. intros pb Hin. apply Hb. right. exact Hin.
Qed.

Lemma heuristics_unit text name ftype r :
  _extract_with_heuristics text name ftype = Ok r -> unit_q (rr_confidence r).
Proof.
  unfold _extract_with_heuristics. intro H. inv_bind H.
  eapply heuristic_loop_unit; [| exact H]. eapply patterns_boost_nonneg. exact E.
Qed.

Lemma validation_unit ev nv ft v :
  _validate_extraction ev nv ft = Ok v -> unit_q v.
Proof.
  unfold _validate_extraction. intro H.
  repeat match type of H with
  | context [if ?c then _ else _] => destruct c
  | context [match ?x with PNone => _ | _ => _ end] => destruct x
  end;
  try discriminate H; injection H as <-; split; discriminate.
Qed.

Lemma product_unit c v : unit_q c -> unit_q v -> unit_q (py_min 1 (c * v)).
Proof.
  intros [Hc0 Hc1] [Hv0 Hv1]. apply py_min_unit.
  unfold Qle in *. simpl in *. destruct c as [cn cd], v as [vn vd]; simpl in *. nia.
Qed.

Lemma heuristic_record_unit text chunks fname ftype desc :
  unit_q (confidence_score (_extract_single_field None text chunks fname ftype desc)).
Proof.
  unfold _extract_single_field.
  destruct (extract_single_field_body None text chunks fname ftype desc) as [r |] eqn:H.
  - unfold extract_single_field_body in H. inv_bind H. injection H as <-.
    cbn [confidence_score]. apply product_unit.
    + eapply heuristics_unit. exact E.
    + eapply validation_unit. exact E2.
  - split; discriminate.
Qed.

Lemma extract_fields_in self text chunks defs rs :
  extract_fields self text chunks defs = Ok rs ->
  forall r, In r rs -> exists n t d, r = _extract_single_field self text chunks n t d.
Proof.
  revert rs. induction defs as [| def defs IH]; intros rs H r Hr; cbn [extract_fields] in H.
  - injection H as <-. destruct Hr.
  - do 4 (inv_bind H; cbv zeta in H). injection H as <-. destruct Hr as [<- | Hr].
    + do 3 eexists. reflexivity.
    + eapply IH; [reflexivity | exact Hr].
Qed.

End ConfidenceFacts.

Module TableOrderFacts.
Import PyStr Regex FieldExtractor ExtractorFacts.
Import Orchestrator TableFacts.

(** [P] splits as [pre ++ e :: post] with [e] the last element satisfying [p]. *)
Definition last_split {A} (p : A -> Prop) (P pre : list A) (e : A) (post : list A) : Prop :=
  P = (pre ++ e :: post)%list /\ p e /\ forall x, In x post -> ~ p x.

Lemma last_split_unique {A} (p : A -> Prop) P pre e post pre' e' post' :
  last_split p P pre e post -> last_split p P pre' e' post' -> e = e'.
Proof.
  intros (-> & He & Hpost) (Heq & He' & Hpost').
  revert pre' Heq. induction pre as [| x pre IH]; intros pre' Heq.
  - destruct pre' as [| y pre']; cbn in Heq; injection Heq as Hxy Hrest; [exact Hxy |].
    exfalso. apply (Hpost e'); [| exact He']. rewrite Hrest. apply in_or_app. right. left. reflexivity.
  - destruct pre' as [| y pre']; cbn in Heq; injection Heq as Hxy Hrest.
    + exfalso. apply (Hpost' e); [| exact He]. rewrite <- Hrest. apply in_or_app. right. left. reflexivity.
    + apply (IH pre' Hrest).
Qed.

Definition same_cell (k n : string) (x : extraction) : Prop :=
  ex_document_id x = k /\ ex_field_name x = n.

(** Which extraction each group entry comes from. *)
Definition groups_src (acc : list (string * field_group)) (P : list extraction) : Prop :=
  forall n g, In (n, g) acc ->
    (exists pre e post, P = (pre ++ e :: post)%list /\ ex_field_name e = n /\
       g_field_type g = ex_field_type e /\ forall x, In x pre -> ex_field_name x <> n) /\
    (forall k r, lookup (g_results g) k = Some r ->
       exists pre e post, last_split (same_cell k n) P pre e post /\ r = summary e).

Lemma groups_src_nil : groups_src [] [].
Proof. intros n g []. Qed.

Lemma group_step_src acc P e :
  groups_ok acc P -> groups_src acc P -> groups_src (group_step acc e) (P ++ [e])%list.
Proof.
  intros (Hnd & Hg & Hf) Hs. unfold group_step.
  set (n := ex_field_name e).
  (* an entry of the old dictionary, seen after [e] *)
  assert (Hold : forall n' g, n' <> n -> In (n', g) acc ->
    (exists pre e0 post, (P ++ [e])%list = (pre ++ e0 :: post)%list /\ ex_field_name e0 = n' /\
       g_field_type g = ex_field_type e0 /\ forall x, In x pre -> ex_field_name x <> n') /\
    (forall k r, lookup (g_results g) k = Some r ->
       exists pre e0 post, last_split (same_cell k n') (P ++ [e])%list pre e0 post /\ r = summary e0)).
  { intros n' g Hne Hin. destruct (Hs n' g Hin) as [(pre & e0 & post & HP & H1 & H2 & H3) Hr].
    split.
    - exists pre, e0, (post ++ [e])%list. rewrite HP, <- app_assoc. split; [reflexivity |].
      split; [exact H1 | split; assumption].
    - intros k r Hk. destruct (Hr k r Hk) as (pre' & e1 & post' & (HP' & Hm & Hpost) & ->).
      exists pre', e1, (post' ++ [e])%list. split; [| reflexivity].
      split; [rewrite HP', <- app_assoc; reflexivity |]. split; [exact Hm |].
      intros x Hx. apply in_app_or in Hx as [Hx | [<- | []]]; [apply Hpost, Hx |].
      intros [_ He]. apply Hne. symmetry. exact He. }
  (* the entry of field [n] after the update, from a previous entry [g0] *)
  assert (Hnew : forall g0,
    (exists pre e0 post, (P ++ [e])%list = (pre ++ e0 :: post)%list /\ ex_field_name e0 = n /\
       g_field_type g0 = ex_field_type e0 /\ forall x, In x pre -> ex_field_name x <> n) ->
    (forall k r, lookup (g_results g0) k = Some r ->
       exists pre e0 post, last_split (same_cell k n) P pre e0 post /\ r = summary e0) ->
    let g := {| g_field_name := g_field_name g0; g_field_type := g_field_type g0;
                g_results := dict_set (g_results g0) (ex_document_id e) (summary e) |} in
    (exists pre e0 post, (P ++ [e])%list = (pre ++ e0 :: post)%list /\ ex_field_name e0 = n /\
       g_field_type g = ex_field_type e0 /\ forall x, In x pre -> ex_field_name x <> n) /\
    (forall k r, lookup (g_results g) k = Some r ->
       exists pre e0 post, last_split (same_cell k n) (P ++ [e])%list pre e0 post /\ r = summary e0)).
  { intros g0 Hty Hr g. split; [exact Hty |]. intros k r. cbn [g_results g].
    rewrite lookup_dict_set. destruct (String.eqb_spec (ex_document_id e) k) as [<- | Hne].
    - intro H. injection H as <-. exists P, e, []. split; [| reflexivity].
      split; [reflexivity |]. split; [split; reflexivity | intros x []].
    - intro Hk. destruct (Hr k r Hk) as (pre' & e1 & post' & (HP' & Hm & Hpost) & ->).
      exists pre', e1, (post' ++ [e])%list. split; [| reflexivity].
      split; [rewrite HP', <- app_assoc; reflexivity |]. split; [exact Hm |].
      intros x Hx. apply in_app_or in Hx as [Hx | [<- | []]]; [apply Hpost, Hx |].
      intros [Hd _]. apply Hne. exact Hd. }
  destruct (lookup acc n) as [g0 |] eqn:E.
  - rewrite E. intros n' g Hin.
    destruct (in_dict_set acc n _ n' g Hnd Hin) as [[-> ->] | [Hne Hin']];
      [| apply Hold; assumption].
    apply lookup_some_in in E. destruct (Hs n g0 E) as [(pre & e0 & post & HP & H1 & H2 & H3) Hr].
    apply Hnew; [| exact Hr].
    exists pre, e0, (post ++ [e])%list. rewrite HP, <- app_assoc. split; [reflexivity |].
    split; [exact H1 | split; assumption].
  - rewrite lookup_dict_set, String.eqb_refl. intros n' g Hin.
    apply lookup_none_iff in E.
    destruct (in_dict_set _ n _ n' g (nodup_dict_set acc n _ Hnd) Hin) as [[-> ->] | [Hne Hin']].
    + apply Hnew.
      * exists P, e, []. split; [reflexivity |]. split; [reflexivity |]. split; [reflexivity |].
        intros x Hx Hxn. apply (Hf n E). exists x. split; assumption.
      * intros k r H. discriminate H.
    + destruct (in_dict_set acc n _ n' g Hnd Hin') as [[Heq _] | [_ Hin'']];
        [contradiction | apply Hold; assumption].
Qed.

Lemma fold_groups_src exs acc P :
  groups_ok acc P -> groups_src acc P ->
  groups_src (fold_left group_step exs acc) (P ++ exs)%list.
Proof.
  revert acc P. induction exs as [| e exs IH]; intros acc P Hok Hs; cbn.
  - rewrite app_nil_r. exact Hs.
  - replace (P ++ e :: exs)%list with ((P ++ [e]) ++ exs)%list
      by (rewrite <- app_assoc; reflexivity).
    apply IH; [apply group_step_ok, Hok | apply group_step_src; assumption].
Qed.

Lemma group_extractions_src exs : groups_src (group_extractions exs) exs.
Proof. apply (fold_groups_src exs [] []); [apply groups_ok_nil | apply groups_src_nil]. Qed.

(** The keys of the grouping dictionary: field names in first-seen order. *)
Definition first_seen (l : list string) : list string :=
  rev (nodup string_dec (rev l)).

Lemma first_seen_snoc l x :
  first_seen (l ++ [x])%list =
  if in_dec string_dec x l then first_seen l else (first_seen l ++ [x])%list.
Proof.
  unfold first_seen. rewrite rev_app_distr. cbn [rev app nodup].
  destruct (in_dec string_dec x (rev l)) as [H | H];
    destruct (in_dec string_dec x l) as [H' | H']; try reflexivity.
  - exfalso. apply H'. apply in_rev. exact H.
  - exfalso. apply H. apply in_rev in H'. exact H'.
Qed.

Lemma first_seen_in l x : In x (first_seen l) <-> In x l.
Proof.
  unfold first_seen. rewrite <- in_rev, nodup_In, <- in_rev. reflexivity.
Qed.

Lemma group_step_keys acc e :
  map fst (group_step acc e) =
  if in_dec string_dec (ex_field_name e) (map fst acc) then map fst acc
  else (map fst acc ++ [ex_field_name e])%list.
Proof.
  unfold group_step. destruct (lookup acc (ex_field_name e)) as [g0 |] eqn:E.
  - rewrite E. rewrite keys_dict_set_in by (apply lookup_some_in in E; apply (in_map fst) in E; exact E).
    destruct (in_dec _ _ _) as [_ | H]; [reflexivity |].
    exfalso. apply lookup_none_iff in H. congruence.
  - rewrite lookup_dict_set, String.eqb_refl.
    apply lookup_none_iff in E as E'.
    rewrite keys_dict_set_in.
    + rewrite keys_dict_set_notin by exact E'.
      destruct (in_dec _ _ _) as [H | _]; [contradiction | reflexivity].
    + apply keys_dict_set_iff. left. reflexivity.
Qed.

Lemma group_keys_first_seen exs :
  map fst (group_extractions exs) = first_seen (map ex_field_name exs).
Proof.
  unfold group_extractions. rewrite <- (rev_involutive exs).
  induction (rev exs) as [| e l IH]; [reflexivity |].
  cbn [rev]. rewrite fold_left_app. cbn [fold_left]. rewrite group_step_keys, IH.
  rewrite map_app. cbn [map]. rewrite first_seen_snoc.
  destruct (in_dec string_dec (ex_field_name e) (first_seen (map ex_field_name (rev l)))) as [H | H];
    destruct (in_dec string_dec (ex_field_name e) (map ex_field_name (rev l))) as [H' | H'];
    try reflexivity; exfalso.
  - apply H', first_seen_in, H.
  - apply H, first_seen_in, H'.
Qed.

Lemma table_rows_eq docs exs :
  docs <> [] -> exs <> [] ->
  generate_comparison_table docs exs =
  map (fun '(_, g) => make_row docs g) (group_extractions exs).
Proof.
  intros Hd He. unfold generate_comparison_table.
  destruct docs; [contradiction |]. destruct exs; [contradiction | reflexivity].
Qed.

End TableOrderFacts.

Module EvaluationFacts.
Import PyStr Orchestrator Evaluation TableFacts.

Lemma filter_if_some f col : filter_if (Some f) col = true <-> f = "" \/ col = f.
Proof.
  unfold filter_if, opt_truthy, py_str. destruct (String.eqb_spec f "") as [-> | Hne]; cbn.
  - split; [left; reflexivity | reflexivity].
  - rewrite String.eqb_eq. split; [right; exact H | intros [H | H]; [contradiction | exact H]].
Qed.

Lemma list_extractions_in st p f d e :
  In e (list_extractions_by_project st p (Some f) (Some d)) <->
  In (p, e) (st_extractions st) /\ (f = "" \/ ex_field_name e = f) /\
  (d = "" \/ ex_document_id e = d).
Proof.
  unfold list_extractions_by_project. rewrite in_map_iff. split.
  - intros [[q e'] [Hs Hin]]. cbn in Hs. subst e'. apply filter_In in Hin as [Hin Hb].
    apply andb_prop in Hb as [Hb Hd]. apply andb_prop in Hb as [Hp Hf].
    apply String.eqb_eq in Hp. subst q.
    split; [exact Hin |]. split; apply filter_if_some; assumption.
  - intros (Hin & Hf & Hd). exists (p, e). split; [reflexivity |].
    apply filter_In. split; [exact Hin |].
    rewrite String.eqb_refl. apply filter_if_some in Hf, Hd. rewrite Hf, Hd. reflexivity.
Qed.

Lemma above_iff s : above s = true <-> (8#10 < s)%Q.
Proof.
  unfold above. rewrite negb_true_iff. split.
  - intro H. apply Qnot_le_lt. intro Hle. apply Qle_bool_iff in Hle. congruence.
  - intro H. destruct (Qle_bool s (8#10)) eqn:E; [| reflexivity].
    apply Qle_bool_iff in E. exfalso. apply (Qlt_not_le _ _ H E).
Qed.

(** The rows [evaluate_extraction] stores. *)
Definition row_ok (r : evaluation_row) : Prop :=
  (0 <= ev_match_score r <= 1)%Q /\ ev_normalized_match r = above (ev_match_score r).

Lemma evaluate_preserves st p d f h :
  (forall r, In r (st_evaluations st) -> row_ok r) ->
  forall r, In r (st_evaluations (fst (evaluate_extraction st p d f h))) -> row_ok r.
Proof.
  intros Hst. unfold evaluate_extraction.
  destruct (list_extractions_by_project st p (Some f) (Some d)) as [| e rest]; [exact Hst |].
  cbn [fst create_evaluation st_evaluations]. intros r Hr.
  apply in_app_or in Hr as [Hr | [<- | []]]; [apply Hst, Hr |].
  split; [apply ScoreFacts.match_score_unit | reflexivity].
Qed.

(** Python's [sum] over the values of a dictionary. *)
Definition sumv {A} (f : A -> nat) (d : list (string * A)) : nat :=
  list_sum (map (fun kv => f (snd kv)) d).

Section Sums.
Context {A : Type} (f : A -> nat).

Lemma sumv_dict_set_some (d : list (string * A)) k v old :
  lookup d k = Some old -> sumv f (dict_set d k v) + f old = sumv f d + f v.
Proof.
  unfold sumv, list_sum. induction d as [| [k0 v0] d IH]; cbn; [discriminate |].
  destruct (String.eqb k0 k); cbn.
  - intro H. injection H as ->. lia.
  - intro H. specialize (IH H). lia.
Qed.

Lemma sumv_dict_set_none (d : list (string * A)) k v :
  lookup d k = None -> sumv f (dict_set d k v) = sumv f d + f v.
Proof.
  unfold sumv, list_sum. induction d as [| [k0 v0] d IH]; cbn; [lia |].
  destruct (String.eqb k0 k); cbn; [discriminate |].
  intro H. specialize (IH H). lia.
Qed.

Lemma in_dict_set_any (d : list (string * A)) k v x :
  In x (dict_set d k v) -> x = (k, v) \/ In x d.
Proof.
  induction d as [| [k0 v0] d IH]; cbn; [intros [H | []]; left; symmetry; exact H |].
  destruct (String.eqb k0 k); cbn.
  - intros [H | H]; [left; symmetry; exact H | right; right; exact H].
  - intros [H | H]; [right; left; exact H |]. destruct (IH H) as [H' | H']; [left; exact H' |].
    right; right; exact H'.
Qed.

End Sums.

(** The [field_results] dictionary after the evaluations [P]. *)
Definition results_ok (acc : list (string * field_result)) (P : list evaluation_row) : Prop :=
  NoDup (map fst acc) /\
  sumv fr_total acc = List.length P /\
  sumv fr_matched acc = List.length (filter (fun e => above (ev_match_score e)) P) /\
  (forall k r, In (k, r) acc -> fr_field_name r = k /\ fr_matched r <= fr_total r) /\
  (forall k, In k (map fst acc) <-> exists e, In e P /\ ev_field_name e = k).

Lemma report_step_ok acc P ev :
  results_ok acc P -> results_ok (report_step acc ev) (P ++ [ev])%list.
Proof.
  intros (Hnd & Ht & Hm & Hent & Hkeys). unfold report_step.
  set (n := ev_field_name ev).
  set (acc1 := match lookup acc n with
               | Some _ => acc
               | None => dict_set acc n {| fr_field_name := n; fr_total := 0; fr_matched := 0;
                                          fr_accuracy := 0 |}
               end).
  assert (H1 : NoDup (map fst acc1) /\ sumv fr_total acc1 = sumv fr_total acc /\
               sumv fr_matched acc1 = sumv fr_matched acc /\
               (forall k r, In (k, r) acc1 -> fr_field_name r = k /\ fr_matched r <= fr_total r) /\
               (forall k, In k (map fst acc1) <-> k = n \/ In k (map fst acc))).
  { subst acc1. destruct (lookup acc n) as [r0 |] eqn:E.
    - split; [exact Hnd |]. split; [reflexivity |]. split; [reflexivity |].
      split; [exact Hent |]. intros k. split; [intros H; right; exact H |].
      intros [-> | H]; [| exact H]. apply lookup_some_in in E. apply (in_map fst) in E. exact E.
    - split; [apply nodup_dict_set, Hnd |].
      rewrite !sumv_dict_set_none by exact E. cbn. split; [lia |]. split; [lia |].
      split; [| intros k; apply keys_dict_set_iff].
      intros k r Hin. apply in_dict_set_any in Hin as [Heq | Hin]; [| apply Hent, Hin].
      injection Heq as -> ->. cbn. split; [reflexivity | lia]. }
  destruct H1 as (Hnd1 & Ht1 & Hm1 & Hent1 & Hkeys1).
  assert (Hl1 : exists r1, lookup acc1 n = Some r1).
  { destruct (lookup acc1 n) eqn:E; [eexists; reflexivity |].
    apply lookup_none_iff in E. exfalso. apply E, Hkeys1. left. reflexivity. }
  destruct Hl1 as [r1 Hr1].
  assert (Hq1 : fr_field_name r1 = n /\ fr_matched r1 <= fr_total r1)
    by (apply Hent1, lookup_some_in, Hr1).
  assert (Hu : forall g, update acc1 n g = dict_set acc1 n (g r1))
    by (intro g; unfold update; rewrite Hr1; reflexivity).
  rewrite !Hu.
  set (r2 := {| fr_field_name := fr_field_name r1; fr_total := S (fr_total r1);
                fr_matched := fr_matched r1; fr_accuracy := fr_accuracy r1 |}).
  set (acc2 := dict_set acc1 n r2).
  pose proof (sumv_dict_set_some fr_total acc1 n r2 r1 Hr1) as St2.
  pose proof (sumv_dict_set_some fr_matched acc1 n r2 r1 Hr1) as Sm2.
  cbn [r2 fr_total fr_matched] in St2, Sm2. fold acc2 in St2, Sm2.
  assert (Hent2 : forall k r, In (k, r) acc2 -> fr_field_name r = k /\ fr_matched r <= fr_total r).
  { intros k r Hin. apply in_dict_set_any in Hin as [Heq | Hin]; [| apply Hent1, Hin].
    injection Heq as -> ->. cbn. split; [apply Hq1 | lia]. }
  assert (Hkeys2 : forall k, In k (map fst acc2) <-> k = n \/ In k (map fst acc)).
  { intros k. unfold acc2. rewrite keys_dict_set_iff, Hkeys1. tauto. }
  assert (Hcount : List.length (filter (fun e => above (ev_match_score e)) (P ++ [ev])) =
                   List.length (filter (fun e => above (ev_match_score e)) P) +
                   (if above (ev_match_score ev) then 1 else 0)).
  { rewrite filter_app, length_app. cbn. destruct (above (ev_match_score ev)); reflexivity. }
  assert (HkeysP : forall k, k = n \/ In k (map fst acc) <->
                        exists e, In e (P ++ [ev])%list /\ ev_field_name e = k).
  { intros k. rewrite Hkeys. split.
    - intros [-> | [e [He Hk]]].
      + exists ev. split; [apply in_or_app; right; left; reflexivity | reflexivity].
      + exists e. split; [apply in_or_app; left; exact He | exact Hk].
    - intros [e [He Hk]]. apply in_app_or in He as [He | [<- | []]].
      + right. exists e. split; assumption.
      + left. symmetry. exact Hk. }
  destruct (above (ev_match_score ev)) eqn:Ea.
  - assert (Hr2 : lookup acc2 n = Some r2) by (unfold acc2; rewrite lookup_dict_set, String.eqb_refl; reflexivity).
    unfold update. rewrite Hr2.
    set (r3 := {| fr_field_name := fr_field_name r2; fr_total := fr_total r2;
                  fr_matched := S (fr_matched r2); fr_accuracy := fr_accuracy r2 |}).
    pose proof (sumv_dict_set_some fr_total acc2 n r3 r2 Hr2) as St3.
    pose proof (sumv_dict_set_some fr_matched acc2 n r3 r2 Hr2) as Sm3.
    cbn [r3 r2 fr_total fr_matched] in St3, Sm3.
    split; [apply nodup_dict_set, nodup_dict_set, Hnd1 |].
    split; [rewrite length_app; cbn [List.length]; lia |].
    split; [rewrite Hcount; lia |].
    split.
    + intros k r Hin. apply in_dict_set_any in Hin as [Heq | Hin]; [| apply Hent2, Hin].
      injection Heq as -> ->. cbn. split; [apply Hq1 | lia].
    + intros k. rewrite keys_dict_set_iff. fold acc2. rewrite Hkeys2, <- HkeysP. tauto.
  - split; [apply nodup_dict_set, Hnd1 |].
    split; [rewrite length_app; cbn [List.length]; lia |].
    split; [rewrite Hcount; lia |].
    split; [exact Hent2 |].
    intros k. fold acc2. rewrite Hkeys2, <- HkeysP. reflexivity.
Qed.

Lemma fold_report_ok evs acc P :
  results_ok acc P -> results_ok (fold_left report_step evs acc) (P ++ evs)%list.
Proof.
  revert acc P. induction evs as [| ev evs IH]; intros acc P H; cbn.
  - rewrite app_nil_r. exact H.
  - replace (P ++ ev :: evs)%list with ((P ++ [ev]) ++ evs)%list
      by (rewrite <- app_assoc; reflexivity).
    apply IH, report_step_ok, H.
Qed.

Lemma report_results_ok evs : results_ok (fold_left report_step evs []) evs.
Proof.
  apply (fold_report_ok evs [] []).
  split; [constructor |]. split; [reflexivity |]. split; [reflexivity |].
  split; [intros k r [] |]. intros k. split; [intros [] | intros [e [[] _]]].
Qed.

Lemma ratio_unit_nat m t : m <= t ->
  (0 <= (if 0 <? t then q_of_nat m / q_of_nat t else 0) <= 1)%Q.
Proof.
  intro H. destruct (0 <? t) eqn:Ht; [| split; discriminate].
  apply Nat.ltb_lt in Ht. unfold q_of_nat.
  assert (Hpos : (0 < inject_Z (Z.of_nat t))%Q) by (unfold Qlt; simpl; lia).
  split.
  - apply Qle_shift_div_l; [exact Hpos |]. unfold Qle. simpl. lia.
  - apply Qle_shift_div_r; [exact Hpos |]. unfold Qle. simpl. destruct (Z.of_nat t) eqn:Ez; lia.
Qed.

Lemma metrics_counts st p :
  total_fields (get_evaluation_metrics st p) = List.length (list_evaluations st p) /\
  matched_fields (get_evaluation_metrics st p) =
    List.length (filter (fun e => above (ev_match_score e)) (list_evaluations st p)).
Proof.
  unfold get_evaluation_metrics. destruct (list_evaluations st p); split; reflexivity.
Qed.

Lemma q_of_nat_succ c : (q_of_nat c + 1 <= q_of_nat (S c))%Q.
Proof. unfold Qle, q_of_nat. simpl. lia. Qed.

Lemma fold_sum_bounds (evs : list evaluation_row) s c :
  (forall r, In r evs -> (0 <= ev_match_score r <= 1)%Q) ->
  (0 <= s)%Q -> (s <= q_of_nat c)%Q ->
  (0 <= fold_left (fun s e => s + ev_match_score e) evs s)%Q /\
  (fold_left (fun s e => s + ev_match_score e) evs s <= q_of_nat (c + List.length evs))%Q.
Proof.
  revert s c. induction evs as [| e evs IH]; intros s c Hu Hs Hc; cbn [fold_left List.length].
  - rewrite Nat.add_0_r. split; assumption.
  - destruct (Hu e (or_introl eq_refl)) as [He0 He1].
    rewrite <- Nat.add_succ_comm. apply IH.
    + intros r Hr. apply Hu. right. exact Hr.
    + apply (Qle_trans _ (0 + 0)); [discriminate |]. apply Qplus_le_compat; assumption.
    + eapply Qle_trans; [apply Qplus_le_compat; [exact Hc | exact He1] | apply q_of_nat_succ].
Qed.

Lemma average_unit (evs : list evaluation_row) :
  (forall r, In r evs -> (0 <= ev_match_score r <= 1)%Q) ->
  (0 <= (if 0 <? List.length evs then
           fold_left (fun s e => s + ev_match_score e) evs 0 / q_of_nat (List.length evs)
         else 0) <= 1)%Q.
Proof.
  intro Hu. destruct (0 <? List.length evs) eqn:Ht; [| split; discriminate].
  apply Nat.ltb_lt in Ht.
  destruct (fold_sum_bounds evs 0 0 Hu (Qle_refl 0) (Qle_refl 0)) as [H0 H1].
  cbn [Nat.add] in H1.
  assert (Hpos : (0 < q_of_nat (List.length evs))%Q) by (unfold Qlt, q_of_nat; simpl; lia).
  split.
  - apply Qle_shift_div_l; [exact Hpos |]. rewrite Qmult_0_l. exact H0.
  - apply Qle_shift_div_r; [exact Hpos |]. eapply Qle_trans; [exact H1 |].
    unfold Qle, q_of_nat. simpl. destruct (Z.of_nat (List.length evs)); lia.
Qed.

End EvaluationFacts.

Module ServiceFacts.
Import PyStr FieldExtractor ExtractorFacts Services.

Definition cit_row (extraction_id : nat) (document_id : string) (c : citation) : citation_row :=
  {| cit_extraction_id := extraction_id; cit_document_id := document_id;
     cit_citation_text := citation_text c; cit_page_number := page_number c;
     cit_section_title := section_title c; cit_relevance_score := relevance_score c;
     cit_chunk_id := None |}.

Lemma citations_fold r xid d cs :
  let r' := fold_left (fun r c => create_citation r xid d c) cs r in
  r_documents r' = r_documents r /\ r_chunks r' = r_chunks r /\
  r_extractions r' = r_extractions r /\ r_reviews r' = r_reviews r /\
  r_citations r' = (r_citations r ++ map (cit_row xid d) cs)%list.
Proof.
  revert r. induction cs as [| c cs IH]; intro r; cbn [fold_left map].
  - rewrite app_nil_r. repeat split.
  - destruct (IH (create_citation r xid d c)) as (H1 & H2 & H3 & H4 & H5).
    rewrite H1, H2, H3, H4, H5. cbn. rewrite <- app_assoc. repeat split.
Qed.

Definition row_of (p d : string) (x : extraction_row) (res : extraction_record) : Prop :=
  xrow_project_id x = p /\ xrow_document_id x = d /\ xrow_status x = "EXTRACTED" /\
  xrow_extracted_value x = extracted_value res.

Definition review_of (p : string) (rv : review_row) (x : extraction_row) : Prop :=
  rv_extraction_id rv = xrow_id x /\ rv_status rv = "PENDING" /\ rv_project_id rv = p /\
  rv_ai_value rv = xrow_extracted_value x.

Definition citation_of (d : string) (new : list extraction_row) (results : list extraction_record)
  (c : citation_row) : Prop :=
  cit_document_id c = d /\ cit_chunk_id c = None /\ In (cit_extraction_id c) (map xrow_id new) /\
  exists res ci, In res results /\ In ci (citations res) /\
    cit_page_number c = page_number ci /\ cit_section_title c = section_title ci.

Lemma store_fold p d results : forall r acc,
  let '(r', acc') := fold_left (store_result p d) results (r, acc) in
  exists new newcits newrevs,
    acc' = (acc ++ new)%list /\
    r_extractions r' = (r_extractions r ++ new)%list /\
    r_citations r' = (r_citations r ++ newcits)%list /\
    r_reviews r' = (r_reviews r ++ newrevs)%list /\
    r_documents r' = r_documents r /\ r_chunks r' = r_chunks r /\
    map xrow_id new = List.seq (List.length (r_extractions r)) (List.length results) /\
    Forall2 (row_of p d) new results /\
    Forall2 (review_of p) newrevs new /\
    Forall (citation_of d new results) newcits.
Proof.
  induction results as [| res results IH]; intros r acc; cbn [fold_left].
  - exists [], [], []. rewrite !app_nil_r. repeat split; constructor.
  - unfold store_result at 2. cbn [create_extraction].
    set (x := {| xrow_id := List.length (r_extractions r); xrow_project_id := p;
                 xrow_document_id := d; xrow_field_name := field_name res;
                 xrow_field_type := field_type res; xrow_extracted_value := extracted_value res;
                 xrow_raw_text := raw_text res; xrow_normalized_value := normalized_value res;
                 xrow_confidence_score := confidence_score res; xrow_method := method res;
                 xrow_status := "EXTRACTED" |}).
    set (r1 := {| r_documents := r_documents r; r_chunks := r_chunks r;
                  r_extractions := (r_extractions r ++ [x])%list;
                  r_citations := r_citations r; r_reviews := r_reviews r |}).
    set (r2 := fold_left (fun r c => create_citation r (xrow_id x) d c) (citations res) r1).
    destruct (citations_fold r1 (xrow_id x) d (citations res)) as (C1 & C2 & C3 & C4 & C5).
    fold r2 in C1, C2, C3, C4, C5.
    cbn [create_review_state].
    set (rv := {| rv_id := List.length (r_reviews r2); rv_project_id := p;
                  rv_extraction_id := xrow_id x; rv_ai_value := xrow_extracted_value x;
                  rv_status := "PENDING"; rv_manual_value := None; rv_reviewer_notes := None;
                  rv_reviewed_by := None |}).
    set (r3 := {| r_documents := r_documents r2; r_chunks := r_chunks r2;
                  r_extractions := r_extractions r2; r_citations := r_citations r2;
                  r_reviews := (r_reviews r2 ++ [rv])%list |}).
    specialize (IH r3 (acc ++ [x])%list).
    destruct (fold_left (store_result p d) results (r3, (acc ++ [x])%list)) as [r' acc'].
    destruct IH as (new & newcits & newrevs & Ha & Hx & Hc & Hr & Hd & Hch & Hids & Hrows & Hrevs & Hcits).
    cbn [r3 r_extractions r_citations r_reviews r_documents r_chunks] in Hx, Hc, Hr, Hd, Hch, Hids.
    rewrite C3 in Hx, Hids. rewrite C5 in Hc. rewrite C4 in Hr. rewrite C1 in Hd. rewrite C2 in Hch.
    cbn [r1 r_extractions r_citations r_reviews r_documents r_chunks] in Hx, Hc, Hr, Hd, Hch, Hids.
    exists (x :: new), (map (cit_row (xrow_id x) d) (citations res) ++ newcits)%list, (rv :: newrevs).
    rewrite <- !app_assoc in Ha, Hx, Hc, Hr. cbn [app] in Ha, Hx, Hr.
    split; [exact Ha |]. split; [exact Hx |]. split; [exact Hc |]. split; [exact Hr |].
    split; [exact Hd |]. split; [exact Hch |].
    split.
    { cbn [map List.length List.seq]. rewrite length_app in Hids. cbn [List.length] in Hids.
      rewrite Nat.add_1_r in Hids. rewrite Hids. reflexivity. }
    split; [constructor; [repeat split | exact Hrows] |].
    split; [constructor; [repeat split | exact Hrevs] |].
    apply Forall_app. split.
    + apply Forall_forall. intros c Hin. apply in_map_iff in Hin as (ci & <- & Hci).
      split; [reflexivity |]. split; [reflexivity |]. split; [left; reflexivity |].
      exists res, ci. split; [left; reflexivity |]. split; [exact Hci | split; reflexivity].
    + eapply Forall_impl; [| exact Hcits]. intros c (H1 & H2 & H3 & res' & ci & H4 & H5 & H6).
      split; [exact H1 |]. split; [exact H2 |]. split; [right; exact H3 |].
      exists res', ci. split; [right; exact H4 | split; [exact H5 | exact H6]].
Qed.

Lemma forall2_in_l {A B} (R : A -> B -> Prop) l1 l2 x :
  Forall2 R l1 l2 -> In x l1 -> exists y, In y l2 /\ R x y.
Proof.
  intro H. induction H as [| a b l1 l2 Hab _ IH]; [intros [] |].
  intros [<- | Hin]; [exists b; split; [left; reflexivity | exact Hab] |].
  destruct (IH Hin) as (y & Hy & Hr). exists y. split; [right; exact Hy | exact Hr].
Qed.

Lemma single_field_citations text chunks n t desc ci :
  In ci (citations (_extract_single_field None text chunks n t desc)) ->
  exists i dd, nth_error chunks i = Some (PDict dd) /\
    page_number ci = dict_get dd "page_number" (PNum 1) /\
    section_title ci = dict_get dd "section" (PStr "Main").
Proof.
  unfold _extract_single_field.
  destruct (extract_single_field_body None text chunks n t desc) as [rec |] eqn:H;
    [| intros []].
  unfold extract_single_field_body in H. inv_bind H. injection H as <-.
  cbn [citations]. intro Hin.
  destruct (find_citations_in _ chunks 3 a0 E0 ci Hin)
    as (s & scs & _ & Hs & sc & Hsc & _ & _ & ->).
  destruct (score_chunks_in s 0 chunks scs Hs sc Hsc) as (i & ch & Hi & Hch).
  destruct (score_chunk_ok s (0 + i) ch sc Hch) as (dd & -> & Hp & Hsec & _ & _).
  exists i, dd. split; [exact Hi |]. cbn [to_citation page_number section_title].
  split; assumption.
Qed.

Lemma results_citations text chunks defs results :
  extract_fields None text chunks defs = Ok results ->
  forall res ci, In res results -> In ci (citations res) ->
  exists i dd, nth_error chunks i = Some (PDict dd) /\
    page_number ci = dict_get dd "page_number" (PNum 1) /\
    section_title ci = dict_get dd "section" (PStr "Main").
Proof.
  intros H res ci Hres Hci.
  destruct (ConfidenceFacts.extract_fields_in None text chunks defs results H res Hres)
    as (n & t & d & ->).
  eapply single_field_citations. exact Hci.
Qed.

Lemma chunks_data_nth chs i dd :
  nth_error (chunks_data chs) i = Some (PDict dd) ->
  exists ch, In ch chs /\
    dict_get dd "page_number" (PNum 1) = crow_page_number ch /\
    dict_get dd "section" (PStr "Main") = PStr (section_or_main (crow_section_title ch)).
Proof.
  unfold chunks_data. rewrite nth_error_map.
  destruct (nth_error chs i) as [ch |] eqn:E; cbn; [| discriminate].
  intro H. injection H as <-. exists ch. split; [eapply nth_error_In; exact E |].
  split; reflexivity.
Qed.

Lemma section_or_main_nonempty s : section_or_main s <> "".
Proof.
  unfold section_or_main. destruct s as [t |]; [| discriminate].
  destruct (String.eqb_spec t ""); [discriminate | exact n].
Qed.

Lemma insert_by_index_in c l y : In y (insert_by_index c l) <-> y = c \/ In y l.
Proof.
  induction l as [| c' l IH]; cbn [insert_by_index]; [cbn; intuition (subst; auto) |].
  destruct (crow_chunk_index c' <=? crow_chunk_index c); cbn; [rewrite IH |]; intuition (subst; auto).
Qed.

Lemma get_document_chunks_in r d ch :
  In ch (get_document_chunks r d) -> In ch (r_chunks r) /\ crow_document_id ch = d.
Proof.
  unfold get_document_chunks.
  assert (G : forall l acc, In ch (fold_left (fun acc c => insert_by_index c acc) l acc) ->
                In ch l \/ In ch acc).
  { induction l as [| c l IH]; intros acc H; [right; exact H |].
    cbn [fold_left] in H. destruct (IH _ H) as [H' | H']; [left; right; exact H' |].
    apply insert_by_index_in in H' as [<- | H']; [left; left; reflexivity | right; exact H']. }
  intro H. destruct (G _ [] H) as [H' | []]. apply filter_In in H' as [H1 H2].
  split; [exact H1 | apply String.eqb_eq, H2].
Qed.

Lemma set_document_status_ids l d st :
  map drow_id (set_document_status l d st) = map drow_id l.
Proof.
  induction l as [| x l IH]; cbn; [reflexivity |].
  destruct (String.eqb (drow_id x) d); cbn; [reflexivity | rewrite IH; reflexivity].
Qed.

Lemma set_document_status_find l d st x :
  find (fun y => String.eqb (drow_id y) d) l = Some x ->
  exists y, find (fun y => String.eqb (drow_id y) d) (set_document_status l d st) = Some y /\
    drow_status y = st.
Proof.
  induction l as [| z l IH]; cbn; [discriminate |].
  destruct (String.eqb (drow_id z) d) eqn:E; cbn.
  - intros _. rewrite E. eexists. split; reflexivity.
  - rewrite E. exact IH.
Qed.

Lemma get_document_none r d : get_document r d = None <-> ~ In d (map drow_id (r_documents r)).
Proof.
  unfold get_document. induction (r_documents r) as [| x l IH]; cbn; [tauto |].
  destruct (String.eqb_spec (drow_id x) d) as [<- | Hne].
  - split; [discriminate | intro H; exfalso; apply H; left; reflexivity].
  - rewrite IH. split; intros H; [intros [H' | H']; [contradiction | tauto] | tauto].
Qed.

End ServiceFacts.

Module ReviewFacts.
Import PyStr Services.

(** Review ids are distinct and below the table size (as the ids
    [create_review_state] hands out). *)
Definition review_ids_ok (r : repo) : Prop :=
  NoDup (map rv_id (r_reviews r)) /\ Forall (fun rv => rv_id rv < List.length (r_reviews r)) (r_reviews r).

Definition has_pending (r : repo) (project_id : string) (extraction_id : nat) : bool :=
  existsb (fun rv => Nat.eqb (rv_extraction_id rv) extraction_id) (list_pending_reviews r project_id).

Lemma set_review_ids hrb l i s mv rn rb : map rv_id (set_review hrb l i s mv rn rb) = map rv_id l.
Proof.
  induction l as [| x l IH]; cbn; [reflexivity |].
  destruct (Nat.eqb (rv_id x) i); cbn; [reflexivity | rewrite IH; reflexivity].
Qed.

Lemma set_review_xids hrb l i s mv rn rb :
  map rv_extraction_id (set_review hrb l i s mv rn rb) = map rv_extraction_id l.
Proof.
  induction l as [| x l IH]; cbn; [reflexivity |].
  destruct (Nat.eqb (rv_id x) i); cbn; [reflexivity | rewrite IH; reflexivity].
Qed.

Lemma set_review_length hrb l i s mv rn rb :
  List.length (set_review hrb l i s mv rn rb) = List.length l.
Proof.
  rewrite <- (length_map rv_id), set_review_ids, length_map. reflexivity.
Qed.

Lemma set_review_find hrb l rv s mv rn rb :
  NoDup (map rv_id l) -> In rv l ->
  find (fun x => Nat.eqb (rv_id x) (rv_id rv)) (set_review hrb l (rv_id rv) s mv rn rb) =
  Some {| rv_id := rv_id rv; rv_project_id := rv_project_id rv;
          rv_extraction_id := rv_extraction_id rv; rv_ai_value := rv_ai_value rv;
          rv_status := s; rv_manual_value := mv; rv_reviewer_notes := rn;
          rv_reviewed_by := if hrb then rb else rv_reviewed_by rv |}.
Proof.
  induction l as [| x l IH]; intros Hnd Hin; [destruct Hin |].
  inversion Hnd as [| ? ? Hx Hnd']; subst.
  cbn [set_review]. destruct (Nat.eqb_spec (rv_id x) (rv_id rv)) as [E | E].
  - cbn. rewrite E, Nat.eqb_refl.
    destruct Hin as [<- | Hin]; [reflexivity |].
    exfalso. apply Hx. rewrite E. apply in_map, Hin.
  - cbn. apply Nat.eqb_neq in E. rewrite E.
    destruct Hin as [<- | Hin]; [rewrite Nat.eqb_refl in E; discriminate |].
    apply IH; assumption.
Qed.

Lemma set_extraction_status_find l i s x :
  find (fun y => Nat.eqb (xrow_id y) i) l = Some x ->
  exists y, find (fun y => Nat.eqb (xrow_id y) i) (set_extraction_status l i s) = Some y /\
    xrow_project_id y = xrow_project_id x /\ xrow_status y = s.
Proof.
  induction l as [| z l IH]; cbn; [discriminate |].
  destruct (Nat.eqb (xrow_id z) i) eqn:E; cbn.
  - intro H. injection H as <-. rewrite E. eexists. split; [reflexivity |]. split; reflexivity.
  - rewrite E. exact IH.
Qed.

Lemma find_pending_none r p xid :
  find (fun rv => Nat.eqb (rv_extraction_id rv) xid) (list_pending_reviews r p) = None <->
  has_pending r p xid = false.
Proof.
  unfold has_pending. induction (list_pending_reviews r p) as [| y l IH]; cbn; [tauto |].
  destruct (Nat.eqb (rv_extraction_id y) xid); cbn; [split; discriminate | exact IH].
Qed.

Lemma find_pending_some r p xid rv :
  find (fun rv => Nat.eqb (rv_extraction_id rv) xid) (list_pending_reviews r p) = Some rv ->
  In rv (r_reviews r) /\ rv_extraction_id rv = xid /\ has_pending r p xid = true.
Proof.
  intro H. destruct (find_some _ _ H) as [Hin Hx].
  unfold list_pending_reviews in Hin. apply filter_In in Hin as [Hin _].
  apply Nat.eqb_eq in Hx. split; [exact Hin |]. split; [exact Hx |].
  destruct (has_pending r p xid) eqn:E; [reflexivity |].
  apply find_pending_none in E. congruence.
Qed.

(** One successful [update_extraction_review]. *)
Lemma update_review_done st sv hrb r xid status mv rn rb x :
  In status st -> get_extraction r xid = Some x -> review_ids_ok r ->
  exists r' resp, update_extraction_review st sv hrb r xid status mv rn rb = Done r' resp /\
    resp_extraction_id resp = xid /\ resp_status resp = sv status /\
    resp_manual_value resp = mv /\ resp_reviewer_notes resp = rn /\
    (exists rv, In rv (r_reviews r') /\ rv_id rv = resp_id resp /\ rv_extraction_id rv = xid /\
       rv_status rv = status /\ rv_manual_value rv = mv /\ rv_reviewer_notes rv = rn) /\
    r_extractions r' = set_extraction_status (r_extractions r) xid status /\
    review_ids_ok r' /\
    map rv_extraction_id (r_reviews r') =
      (map rv_extraction_id (r_reviews r) ++
       (if has_pending r (xrow_project_id x) xid then [] else [xid]))%list.
Proof.
  intros Hst Hx [Hnd Hlt]. unfold update_extraction_review. rewrite Hx.
  assert (Hv : existsb (String.eqb status) st = true).
  { apply existsb_exists. exists status. split; [exact Hst | apply String.eqb_refl]. }
  rewrite Hv. cbn [negb].
  (* the review state the update works on *)
  assert (Hrs : exists r1 rs,
    (match find (fun rv => Nat.eqb (rv_extraction_id rv) xid)
             (list_pending_reviews r (xrow_project_id x)) with
     | Some rv => (r, rv)
     | None => create_review_state r (xrow_project_id x) xid (xrow_extracted_value x)
     end) = (r1, rs) /\
    In rs (r_reviews r1) /\ rv_extraction_id rs = xid /\ review_ids_ok r1 /\
    r_extractions r1 = r_extractions r /\
    map rv_extraction_id (r_reviews r1) =
      (map rv_extraction_id (r_reviews r) ++
       (if has_pending r (xrow_project_id x) xid then [] else [xid]))%list).
  { destruct (find _ (list_pending_reviews r (xrow_project_id x))) as [rv |] eqn:E.
    - destruct (find_pending_some _ _ _ _ E) as (Hin & Hid & Hp).
      exists r, rv. rewrite Hp, app_nil_r. repeat split; assumption.
    - apply find_pending_none in E. rewrite E.
      eexists; eexists; split; [reflexivity |]. cbn [r_reviews r_extractions rv_extraction_id].
      split; [apply in_or_app; right; left; reflexivity |].
      split; [reflexivity |].
      split; [| split; [reflexivity | rewrite map_app; reflexivity]].
      unfold review_ids_ok; cbn [r_reviews]. split.
      + rewrite map_app. cbn [map]. apply NoDup_app; [exact Hnd | constructor; [intros [] | constructor] |].
        intros i Hi [<- | []]. apply in_map_iff in Hi as (y & Hy & Hin).
        rewrite Forall_forall in Hlt. specialize (Hlt y Hin). cbn in Hy. lia.
      + rewrite length_app. apply Forall_app. split.
        * eapply Forall_impl; [| exact Hlt]. cbn. intros y Hy. lia.
        * constructor; [cbn; lia | constructor]. }
  destruct Hrs as (r1 & rs & -> & Hin & Hid & [Hnd1 Hlt1] & Hx1 & Hm1).
  unfold update_review_state. cbn [r_reviews].
  rewrite (set_review_find hrb _ rs status mv rn rb Hnd1 Hin).
  eexists; eexists; split; [reflexivity |].
  cbn [resp_extraction_id resp_status resp_manual_value resp_reviewer_notes resp_id
       rv_extraction_id rv_status rv_manual_value rv_reviewer_notes rv_id].
  do 4 (split; [reflexivity |]).
  split.
  { pose proof (set_review_find hrb (r_reviews r1) rs status mv rn rb Hnd1 Hin) as F.
    apply find_some in F as [F _].
    eexists. split; [cbn [update_extraction r_reviews]; exact F |].
    cbn [rv_id rv_extraction_id rv_status rv_manual_value rv_reviewer_notes].
    split; [reflexivity | split; [exact Hid | split; [reflexivity | split; reflexivity]]]. }
  cbn [update_extraction r_extractions r_reviews]. rewrite Hx1.
  split; [reflexivity |].
  split; [unfold review_ids_ok; cbn [update_extraction r_reviews]; split |].
  - rewrite set_review_ids. exact Hnd1.
  - rewrite set_review_length. rewrite Forall_forall in Hlt1 |- *.
    intros y Hy. apply (in_map rv_id) in Hy. rewrite set_review_ids in Hy.
    apply in_map_iff in Hy as (z & Hz & Hin'). rewrite <- Hz. apply Hlt1, Hin'.
  - rewrite set_review_xids. exact Hm1.
Qed.

Lemma count_occ_one_unique (l : list review_row) y a b :
  count_occ Nat.eq_dec (map rv_extraction_id l) y <= 1 ->
  In a l -> In b l -> rv_extraction_id a = y -> rv_extraction_id b = y -> a = b.
Proof.
  induction l as [| c l IH]; intros Hc Ha Hb Hya Hyb; [destruct Ha |].
  cbn [map count_occ] in Hc.
  destruct (Nat.eq_dec (rv_extraction_id c) y) as [E | E].
  - assert (H0 : count_occ Nat.eq_dec (map rv_extraction_id l) y = 0) by lia.
    rewrite <- count_occ_not_In in H0.
    destruct Ha as [<- | Ha]; [| exfalso; apply H0; rewrite <- Hya; apply in_map, Ha].
    destruct Hb as [<- | Hb]; [reflexivity | exfalso; apply H0; rewrite <- Hyb; apply in_map, Hb].
  - destruct Ha as [<- | Ha]; [contradiction |].
    destruct Hb as [<- | Hb]; [contradiction |].
    apply IH; assumption.
Qed.

Lemma has_pending_in r p xid :
  has_pending r p xid = true ->
  exists q, In q (r_reviews r) /\ rv_extraction_id q = xid /\ rv_status q = "PENDING".
Proof.
  unfold has_pending, list_pending_reviews. intro H.
  apply existsb_exists in H as (q & Hq & Hx). apply filter_In in Hq as [Hq Hs].
  apply andb_true_iff in Hs as [_ Hs].
  exists q. split; [exact Hq |]. split; [apply Nat.eqb_eq, Hx | apply String.eqb_eq, Hs].
Qed.

End ReviewFacts.

(** * The claims *)

Module Claims.
Import PyStr Regex FieldExtractor ExtractorFacts.

(** ** C1 *)

(** C1 (counterexample). For the field "Foo" (generic pattern only) on the
    text " Foo: bar and", the first match's capture group is "bar " and its
    window is " Foo: bar and", but the strategy returns the value "bar" and
    the raw text "Foo: bar and": both are stripped of surrounding
    whitespace. *)
Lemma C1_counterexample :
  let text := " Foo: bar and" in
  exists m g er,
    search true (generic_pat "Foo") text = Some m /\
    group text m 1 = Some g /\ g = "bar " /\
    window text m = " Foo: bar and" /\
    _extract_with_heuristics text (PStr "Foo") (PStr "TEXT") = Ok er /\
    rr_value er <> PStr g /\ rr_raw_text er <> PStr (window text m).
Proof.
  cbv zeta. do 3 eexists.
  split; [vm_compute; reflexivity |].
  split; [vm_compute; reflexivity |].
  split; [reflexivity |].
  split; [vm_compute; reflexivity |].
  split; [vm_compute; reflexivity |].
  split; vm_compute; discriminate.
Qed.

(** C1 (amended). With the pattern list of a field, the heuristic strategy
    returns on the first pattern that has a match: the value is the first
    match's capture group (or whole match without a group) stripped of
    surrounding whitespace, the raw text is the ±100-character window around
    that match stripped of surrounding whitespace, and the confidence is
    [min(1.0, 0.6 + confidence_boost)] of that pattern; later patterns and
    later matches play no part. With no matching pattern the result is
    [{value: None, raw_text: None, confidence: 0.0}]. *)
Theorem C1_first_pattern_first_match text name ftype pats :
  _get_patterns_for_field (PStr name) ftype = Ok pats ->
  (forall pre p boost post m g,
     pats = (pre ++ (p, boost) :: post)%list ->
     (forall q, In q pre -> search true (fst q) text = None) ->
     search true p text = Some m ->
     group text m (if 0 <? groups p then 1 else 0) = Some g ->
     _extract_with_heuristics text (PStr name) ftype =
       Ok {| rr_value := PStr (strip g);
             rr_raw_text := PStr (strip (window text m));
             rr_confidence := py_min 1 ((6#10) + boost)%Q |}) /\
  ((forall q, In q pats -> search true (fst q) text = None) ->
   _extract_with_heuristics text (PStr name) ftype = Ok no_result).
Proof.
  intro Hp. unfold _extract_with_heuristics. rewrite Hp. cbn [bind]. split.
  - intros pre p boost post m g -> Hpre Hs Hg.
    apply heuristic_loop_first; assumption.
  - apply heuristic_loop_none.
Qed.

(** C1 witness: a field with the generic pattern only, on a text where
    it does not match. *)
Lemma C1_first_pattern_first_match_witness :
  _extract_with_heuristics "nothing here" (PStr "Foo") (PStr "TEXT") = Ok no_result.
Proof.
  destruct (_get_patterns_for_field (PStr "Foo") (PStr "TEXT")) as [pats | e] eqn:E;
    [| vm_compute in E; discriminate E].
  destruct (C1_first_pattern_first_match "nothing here" "Foo" (PStr "TEXT") pats E) as [_ H].
  apply H. vm_compute in E. injection E as <-.
  intros q [<- | []]. vm_compute. reflexivity.
Defined.

(** ** C2 *)

(** C2 (counterexample). On the generative strategy, a backend answer with
    [value = null] and a non-null [raw_text] yields a record with a null
    [extracted_value] whose citations are ranked against [raw_text]: they
    are not empty. *)
Lemma C2_counterexample :
  let r := _extract_single_field
             (Some (fun _ _ _ _ =>
                      Some (PDict [("value", PNone); ("raw_text", PStr "Term of one year");
                                   ("confidence", PNum (9#10))])))
             "Term of one year" [PDict [("text", PStr "Term of one year")]]
             (PStr "Term") (PStr "TEXT") (PStr "") in
  extracted_value r = PNone /\ citations r <> [].
Proof. vm_compute. split; [reflexivity | discriminate]. Qed.

(** C2 (amended). On the heuristic strategy (no LLM client), a record
    with a null [extracted_value] has confidence 0.0, a null [raw_text] and
    no citations: either the body failed and the error record has them, or
    no pattern matched, the validation score of a null value is 0.0 and the
    citation query [raw_text or extracted_value] is null.  The confidences
    on this path are the finite constants of the pattern table, so the
    rational model of floats is exact here. *)
Theorem C2_null_value_record text chunks fname ftype desc :
  let r := _extract_single_field None text chunks fname ftype desc in
  extracted_value r = PNone ->
  (confidence_score r == 0)%Q /\ raw_text r = PNone /\ citations r = [].
Proof.
  cbv zeta. unfold _extract_single_field.
  destruct (extract_single_field_body None text chunks fname ftype desc) as [r |] eqn:Eb.
  2:{ cbn. intros _. split; [reflexivity | split; reflexivity]. }
  unfold extract_single_field_body in Eb.
  destruct (_extract_with_heuristics text fname ftype) as [er |] eqn:Es;
    cbn [bind] in Eb; [| discriminate Eb].
  destruct (_find_citations (py_or (rr_raw_text er) (rr_value er)) chunks 3)
    as [cits |] eqn:Ec; cbn [bind] in Eb; [| discriminate Eb].
  destruct (_normalize_value (rr_value er) ftype) as [nv |] eqn:En;
    cbn [bind] in Eb; [| discriminate Eb].
  destruct (_validate_extraction (rr_value er) nv ftype) as [vs |] eqn:Ev;
    cbn [bind] in Eb; [| discriminate Eb].
  inversion Eb; subst r. cbn [extracted_value raw_text citations confidence_score].
  intro Hv. rewrite Hv in Ev, Ec. cbn in Ev. inversion Ev; subst vs.
  split; [apply py_min_1_zero |].
  assert (Hr : rr_raw_text er = PNone) by (eapply heuristics_null; eassumption).
  split; [exact Hr |].
  rewrite Hr in Ec. cbn in Ec. inversion Ec. reflexivity.
Qed.

(** C2 witness: the heuristic strategy on a text without a match. *)
Lemma C2_null_value_record_witness :
  let r := _extract_single_field None "nothing here" [] (PStr "Foo") (PStr "TEXT") (PStr "") in
  (confidence_score r == 0)%Q /\ citations r = [].
Proof.
  destruct (C2_null_value_record "nothing here" [] (PStr "Foo") (PStr "TEXT") (PStr ""))
    as (H1 & _ & H3); [vm_compute; reflexivity |].
  split; [exact H1 | exact H3].
Defined.

(** ** C3 *)

(** C3 (failing input). A backend confidence of -0.5 for a TEXT field
    (validation multiplier 0.8) gives the record the confidence -0.4:
    the code clamps confidences from above only. *)
Theorem C3_negative_confidence :
  let r := _extract_single_field
             (Some (fun _ _ _ _ =>
                      Some (PDict [("value", PStr "Acme Corp"); ("raw_text", PNone);
                                   ("confidence", PNum (-(1#2)))])))
             "Acme Corp" [] (PStr "Party") (PStr "TEXT") (PStr "") in
  extracted_value r = PStr "Acme Corp" /\ error r = None /\
  (confidence_score r == -(2#5))%Q /\ (confidence_score r < 0)%Q.
Proof. vm_compute. split; [reflexivity | split; [reflexivity | split; reflexivity]]. Qed.

(** ** C4 *)

(** C4. Field definitions are dictionaries: [extract_fields] takes a
    [List[Dict[str, Any]]] and its caller passes [field.dict()] results.
    For every list of them (keys possibly missing, values of any type,
    field types unsupported or not), [extract_fields] returns one record
    per definition, in order, each computed from its own definition alone;
    each record carries that definition's name and is a success (no error)
    or, when anything in the per-field [try] failed, an error record with a
    null value, confidence 0.0 and no citations, so no failure escapes to
    abort the batch. *)
Theorem C4_one_record_per_field self text chunks dicts :
  exists recs,
    extract_fields self text chunks (map PDict dicts) = Ok recs /\
    List.length recs = List.length dicts /\
    forall i d, nth_error dicts i = Some d ->
      exists r, nth_error recs i = Some r /\
        r = _extract_single_field self text chunks (dict_get d "name" (PStr ""))
              (dict_get d "field_type" (PStr "TEXT"))
              (dict_get d "description" (PStr "")) /\
        field_name r = dict_get d "name" (PStr "") /\
        (error r = None \/
         (exists e, error r = Some e /\ extracted_value r = PNone /\
                    confidence_score r = 0%Q /\ citations r = [])).
Proof.
  eexists. split; [apply extract_fields_dicts |]. split; [apply length_map |].
  intros i d Hd. eexists. split; [rewrite nth_error_map, Hd; reflexivity |].
  split; [reflexivity |]. apply single_field_shape.
Qed.

(** ** C5 *)

(** C5. For [top_k >= 0] (the extractor passes 3), citation ranking
    returns [] for an empty or absent query, at most [top_k] citations,
    and only citations with a relevance score strictly greater than 0
    (chunks scoring 0 are dropped even when fewer than [top_k] remain); the
    result is a function of the inputs. *)
Theorem C5_citation_ranking q chunks k cits :
  (0 <= k)%Z ->
  _find_citations q chunks k = Ok cits ->
  ((q = PNone \/ q = PStr "") -> cits = []) /\
  (Z.of_nat (List.length cits) <= k)%Z /\
  (forall c, In c cits -> (0 < relevance_score c)%Q) /\
  (forall cits', _find_citations q chunks k = Ok cits' -> cits' = cits).
Proof.
  intros Hk H. split; [| split; [| split]].
  - intros [-> | ->]; cbn in H; inversion H; reflexivity.
  - revert H. unfold _find_citations. destruct (truthy q); cbn [negb].
    2:{ intro H. inversion H; subst. cbn. exact Hk. }
    destruct q as [| | | s | |]; try discriminate.
    destruct (score_chunks s 0 chunks) as [scs |]; cbn [bind]; [| discriminate].
    intro H. inversion H; subst cits. rewrite length_map.
    pose proof (take_prefix_length (sort_desc scs) k Hk).
    pose proof (filter_length_le (fun c => negb (Qle_bool (sc_similarity c) 0))
                                 (take_prefix (sort_desc scs) k)).
    lia.
  - intros c Hc.
    destruct (find_citations_in q chunks k cits H c Hc)
      as (s & scs & _ & _ & sc & _ & _ & Hpos & ->).
    cbn [to_citation relevance_score]. apply Qnot_le_lt.
    intro Hle. apply Qle_bool_iff in Hle. rewrite Hle in Hpos. discriminate.
  - intros cits' H'. rewrite H in H'. inversion H'. reflexivity.
Qed.

(** C5 witness: two chunks, one sharing a token with the query, [top_k = 1]. *)
Lemma C5_citation_ranking_witness :
  exists cits,
    _find_citations (PStr "a") [PDict [("text", PStr "a b")]; PDict [("text", PStr "c")]] 1
      = Ok cits /\
    List.length cits = 1 /\ (forall c, In c cits -> (0 < relevance_score c)%Q).
Proof.
  destruct (_find_citations (PStr "a") [PDict [("text", PStr "a b")]; PDict [("text", PStr "c")]] 1)
    as [cits | e] eqn:H; [| vm_compute in H; discriminate H].
  exists cits. destruct (C5_citation_ranking _ _ 1%Z _ ltac:(lia) H) as (_ & Hk & Hr & _).
  split; [reflexivity |]. split; [vm_compute in H; injection H as <-; reflexivity | exact Hr].
Defined.

(** ** C10 *)

(** C10 (counterexample). A chunk whose [page_number] key holds [None]
    (as the orchestrator builds chunks from stored rows) yields a citation
    whose [page_number] is [None]: [chunk.get('page_number', 1)] defaults
    only an absent key. *)
Lemma C10_counterexample :
  exists cits c,
    _find_citations (PStr "Term")
      [PDict [("text", PStr "Term of one year"); ("page_number", PNone);
              ("section", PStr "Main")]] 3 = Ok cits /\
    In c cits /\ page_number c = PNone.
Proof.
  do 2 eexists. split; [reflexivity |]. split; [left; reflexivity | reflexivity].
Qed.

(** C10 (amended). Every citation carries the [page_number] and [section]
    values of its source chunk (and that chunk's index as [chunk_id]); the
    defaults 1 and "Main" apply only when the chunk has no such key, and a
    key present with [None] gives [None]. *)
Theorem C10_citation_location q chunks k cits :
  _find_citations q chunks k = Ok cits ->
  forall c, In c cits ->
    exists i d, nth_error chunks i = Some (PDict d) /\
      page_number c = dict_get d "page_number" (PNum 1) /\
      section_title c = dict_get d "section" (PStr "Main") /\
      chunk_id c = of_nat i /\
      (~ In "page_number" (map fst d) -> page_number c = PNum 1) /\
      (~ In "section" (map fst d) -> section_title c = PStr "Main").
Proof.
  intros H c Hc.
  destruct (find_citations_in q chunks k cits H c Hc)
    as (s & scs & -> & Hs & sc & Hin & _ & _ & ->).
  destruct (score_chunks_in s 0 chunks scs Hs sc Hin) as (i & ch & Hi & Hsc).
  destruct (score_chunk_ok s (0 + i) ch sc Hsc) as (d & -> & Hp & Hsec & Hid & _).
  exists i, d. cbn [to_citation page_number section_title chunk_id].
  rewrite Hp, Hsec, Hid. split; [exact Hi |]. split; [reflexivity |].
  split; [reflexivity |]. split; [reflexivity |].
  split; intro Ha; apply dict_get_absent; exact Ha.
Qed.

(** C10 witness: a chunk with a page number and no section. *)
Lemma C10_citation_location_witness :
  exists cits,
    _find_citations (PStr "a") [PDict [("text", PStr "a b"); ("page_number", PNum 4)]] 3 = Ok cits /\
    forall c, In c cits -> page_number c = PNum 4 /\ section_title c = PStr "Main".
Proof.
  destruct (_find_citations (PStr "a") [PDict [("text", PStr "a b"); ("page_number", PNum 4)]] 3)
    as [cits | e] eqn:H; [| vm_compute in H; discriminate H].
  exists cits. split; [reflexivity |]. intros c Hc.
  destruct (C10_citation_location _ _ _ _ H c Hc) as (i & d & Hi & Hp & Hs & _ & _ & Hsec).
  destruct i as [| i]; [| destruct i; discriminate Hi].
  injection Hi as <-. split; [exact Hp | apply Hsec; cbn; intuition discriminate].
Defined.

(** ** C7: the match score *)

(** C7 (counterexample): the score is not symmetric.  [SequenceMatcher]
    anchors on the longest block found first in its first argument:
    for ["tide"] against ["diet"] it keeps ["t"] then finds nothing else
    (ratio 2/8), while ["diet"] against ["tide"] finds ["di"] (ratio 4/8). *)
Lemma C7_counterexample :
  Orchestrator._calculate_match_score (Some "tide") (Some "diet") == (1 # 4)%Q /\
  Orchestrator._calculate_match_score (Some "diet") (Some "tide") == (1 # 2)%Q /\
  ~ (Orchestrator._calculate_match_score (Some "tide") (Some "diet") ==
     Orchestrator._calculate_match_score (Some "diet") (Some "tide"))%Q.
Proof.
  split; [vm_compute; reflexivity |]. split; [vm_compute; reflexivity |].
  vm_compute. discriminate.
Qed.

(** C7 (amended): every score lies in [0, 1]; the score is symmetric
    when one side is absent or empty, or when both sides agree after
    lower-casing and stripping, but not in general (see
    [C7_counterexample]). *)
Theorem C7_score_range :
  forall a b,
    (0 <= Orchestrator._calculate_match_score a b <= 1)%Q /\
    ((negb (Orchestrator.opt_truthy a) || negb (Orchestrator.opt_truthy b)) = true ->
     Orchestrator._calculate_match_score a b = Orchestrator._calculate_match_score b a) /\
    (strip (lower (Orchestrator.py_str a)) = strip (lower (Orchestrator.py_str b)) ->
     Orchestrator._calculate_match_score a b = Orchestrator._calculate_match_score b a).
Proof.
  intros a b. split; [apply ScoreFacts.match_score_unit |]. split.
  - intros H. unfold Orchestrator._calculate_match_score.
    rewrite H, orb_comm, H, ScoreFacts.opt_eqb_sym. reflexivity.
  - intros H. unfold Orchestrator._calculate_match_score.
    rewrite orb_comm, H, String.eqb_refl, (ScoreFacts.opt_eqb_sym a b). reflexivity.
Qed.

(** C7 witness. *)
Lemma C7_score_range_witness :
  (0 <= Orchestrator._calculate_match_score None (Some "A") <= 1)%Q /\
  Orchestrator._calculate_match_score None (Some "A") =
  Orchestrator._calculate_match_score (Some "A") None /\
  Orchestrator._calculate_match_score (Some " Net 30") (Some "net 30 ") =
  Orchestrator._calculate_match_score (Some "net 30 ") (Some " Net 30").
Proof.
  destruct (C7_score_range None (Some "A")) as [H1 [H2 _]].
  destruct (C7_score_range (Some " Net 30") (Some "net 30 ")) as [_ [_ H3]].
  split; [exact H1 |]. split; [apply H2; reflexivity | apply H3; vm_compute; reflexivity].
Defined.

(** ** C8: absent values and identical values *)

(** C8: when either side is absent ([None]) the score is 1 if both are
    absent and 0 otherwise; a non-empty value scores 1 against itself;
    in particular [score None None = 1] and [score "A" None = 0]. *)
Theorem C8_absent_and_identical :
  (forall a b, (a = None \/ b = None) ->
     Orchestrator._calculate_match_score a b =
     (match a, b with None, None => 1 | _, _ => 0 end)%Q) /\
  (forall x, x <> "" -> Orchestrator._calculate_match_score (Some x) (Some x) = 1%Q) /\
  Orchestrator._calculate_match_score None None = 1%Q /\
  Orchestrator._calculate_match_score (Some "A") None = 0%Q.
Proof.
  split; [| split; [| split; reflexivity]].
  - intros a b [-> | ->]; unfold Orchestrator._calculate_match_score; cbn.
    + destruct b; reflexivity.
    + destruct a as [s |]; [| reflexivity]. rewrite orb_true_r. reflexivity.
  - intros x Hx. unfold Orchestrator._calculate_match_score. cbn [Orchestrator.opt_truthy].
    destruct (String.eqb x "") eqn:E; [apply String.eqb_eq in E; contradiction |].
    cbn. rewrite String.eqb_refl. reflexivity.
Qed.

(** C8 witness. *)
Lemma C8_absent_and_identical_witness :
  Orchestrator._calculate_match_score None (Some "Acme") = 0%Q /\
  Orchestrator._calculate_match_score (Some "Acme") (Some "Acme") = 1%Q.
Proof.
  destruct C8_absent_and_identical as [H1 [H2 _]].
  split; [apply (H1 None (Some "Acme")); left; reflexivity |].
  apply H2. discriminate.
Defined.

(** ** C9: the comparison table *)

(** C9: when the document list or the extraction list is empty the table
    has no rows; otherwise every row has exactly one cell per document id
    of the document list and no other cell, and the cell of a document is
    the sentinel (extracted value ["N/A"], confidence 0) exactly when no
    extraction records that document and the row's field. *)
Theorem C9_one_cell_per_document :
  forall (docs : list Orchestrator.document) (exs : list Orchestrator.extraction),
    ((docs = [] \/ exs = []) -> Orchestrator.generate_comparison_table docs exs = []) /\
    forall row, In row (Orchestrator.generate_comparison_table docs exs) ->
      NoDup (map fst (Orchestrator.document_results row)) /\
      (forall k, In k (map fst (Orchestrator.document_results row)) ->
         exists d, In d docs /\ Orchestrator.doc_id d = k) /\
      forall d, In d docs ->
        exists c, Orchestrator.lookup (Orchestrator.document_results row) (Orchestrator.doc_id d) = Some c /\
          (c = Orchestrator.CellNA <->
           ~ exists e, In e exs /\ Orchestrator.ex_document_id e = Orchestrator.doc_id d /\
                       Orchestrator.ex_field_name e = Orchestrator.row_field_name row) /\
          (c = Orchestrator.CellNA ->
           Orchestrator.cell_extracted_value c = Some "N/A" /\
           Orchestrator.cell_confidence_score c = 0%Q).
Proof.
  intros docs exs. split.
  - intros [-> | ->]; [reflexivity |]. destruct docs; reflexivity.
  - intros row Hrow. destruct (TableFacts.table_row docs exs row Hrow) as (H1 & H2 & H3).
    split; [exact H1 |]. split.
    + intros k Hk. apply H2, in_map_iff in Hk. destruct Hk as [d [Hd Hin]].
      exists d. split; assumption.
    + intros d Hd. destruct (H3 d Hd) as [c [Hc Hna]]. exists c.
      split; [exact Hc |]. split; [exact Hna |]. intros ->. split; reflexivity.
Qed.

(** C9 witness: two documents, one extraction for the first. *)
Lemma C9_one_cell_per_document_witness :
  let docs := [ {| Orchestrator.doc_id := "d1"; Orchestrator.filename := "a.pdf";
                   Orchestrator.file_type := "PDF" |};
                {| Orchestrator.doc_id := "d2"; Orchestrator.filename := "b.pdf";
                   Orchestrator.file_type := "PDF" |} ] in
  let exs := [ {| Orchestrator.ex_id := "x1"; Orchestrator.ex_document_id := "d1";
                  Orchestrator.ex_field_name := "Term"; Orchestrator.ex_field_type := "TEXT";
                  Orchestrator.ex_extracted_value := Some "one year";
                  Orchestrator.ex_normalized_value := Some "one year";
                  Orchestrator.ex_confidence_score := (9 # 10)%Q;
                  Orchestrator.ex_status := "PENDING" |} ] in
  exists row, In row (Orchestrator.generate_comparison_table docs exs) /\
    NoDup (map fst (Orchestrator.document_results row)).
Proof.
  intros docs exs.
  exists (hd {| Orchestrator.row_field_name := ""; Orchestrator.row_field_type := "";
                Orchestrator.document_results := [] |}
             (Orchestrator.generate_comparison_table docs exs)).
  assert (Hin : In (hd {| Orchestrator.row_field_name := ""; Orchestrator.row_field_type := "";
                          Orchestrator.document_results := [] |}
                       (Orchestrator.generate_comparison_table docs exs))
                   (Orchestrator.generate_comparison_table docs exs))
    by (vm_compute; left; reflexivity).
  split; [exact Hin |].
  destruct (C9_one_cell_per_document docs exs) as [_ H].
  destruct (H _ Hin) as [Hnd _]. exact Hnd.
Defined.

End Claims.

(** * Further properties of the code *)

Module Extras.
Import PyStr Regex FieldExtractor ExtractorFacts.
Import CitationFacts TableExamples.

(** X2. When [_find_citations] succeeds, its citations are ordered by
    non-increasing relevance score, come from distinct chunks (distinct
    [chunk_id]s), are no more numerous than the chunks, and each citation
    text is at most 500 characters long. *)
Theorem citations_ranked q chunks k cits :
  _find_citations q chunks k = Ok cits ->
  (forall i j ci cj, i < j -> nth_error cits i = Some ci -> nth_error cits j = Some cj ->
     (relevance_score cj <= relevance_score ci)%Q) /\
  NoDup (map chunk_id cits) /\
  List.length cits <= List.length chunks /\
  (forall c, In c cits -> String.length (citation_text c) <= 500).
Proof.
  unfold _find_citations. destruct (truthy q); cbn [negb].
  2:{ intro H. inversion H; subst. split; [intros i j ci cj _ Hi; destruct i; discriminate |].
      split; [constructor |]. split; [cbn; lia | intros c []]. }
  destruct q as [| | | s | |]; try discriminate.
  destruct (score_chunks s 0 chunks) as [scs |] eqn:E; cbn [bind]; [| discriminate].
  intro H. inversion H; subst cits. clear H.
  set (p := fun c => negb (Qle_bool (sc_similarity c) 0)).
  pose proof (score_chunks_ids s 0 chunks scs E) as Hids.
  split; [| split; [| split]].
  - apply sorted_nth. apply (sorted_map ranked_before).
    + intros x y Hxy. exact Hxy.
    + apply sorted_filter, sorted_take_prefix, sort_desc_sorted.
  - rewrite map_map. cbn [chunk_id to_citation].
    apply nodup_map_filter. unfold take_prefix. destruct (0 <=? k)%Z; apply nodup_map_firstn;
    apply (Permutation_NoDup (Permutation_map sc_chunk_id (Permutation_sym (sort_desc_perm scs))));
    rewrite Hids; apply nodup_map_of_nat, seq_NoDup.
  - rewrite length_map.
    assert (Hl : List.length scs = List.length chunks).
    { rewrite <- (length_map sc_chunk_id scs), Hids, length_map, length_seq. reflexivity. }
    rewrite <- Hl, <- (Permutation_length (sort_desc_perm scs)).
    eapply Nat.le_trans; [apply filter_length_le |].
    unfold take_prefix. destruct (0 <=? k)%Z; rewrite length_firstn; lia.
  - intros c Hc. apply in_map_iff in Hc as (sc & <- & _). cbn [to_citation citation_text].
    pose proof (slice_length (sc_text sc) 0 500). lia.
Qed.

(** X2 witness: the query "a b" over three chunks. *)
Lemma citations_ranked_witness :
  exists cits,
    _find_citations (PStr "a b")
      [PDict [("text", PStr "a")]; PDict [("text", PStr "c")]; PDict [("text", PStr "a b c")]] 3
      = Ok cits /\
    map chunk_id cits = ["2"; "0"] /\
    NoDup (map chunk_id cits) /\ List.length cits <= 3.
Proof.
  destruct (_find_citations (PStr "a b")
      [PDict [("text", PStr "a")]; PDict [("text", PStr "c")]; PDict [("text", PStr "a b c")]] 3)
    as [cits | e] eqn:H; [| vm_compute in H; discriminate H].
  exists cits. destruct (citations_ranked _ _ _ _ H) as (_ & Hnd & Hlen & _).
  split; [reflexivity |]. split; [vm_compute in H; injection H as <-; reflexivity |].
  split; [exact Hnd | exact Hlen].
Defined.

(** X3. Without an LLM client, every record [extract_fields] returns
    has a confidence score in [0, 1]: 0.6 plus the pattern's boost, capped
    at 1, times the validation score, capped at 1. *)
Theorem heuristic_confidence_unit text chunks defs rs :
  extract_fields None text chunks defs = Ok rs ->
  forall r, In r rs -> (0 <= confidence_score r <= 1)%Q.
Proof.
  intros H r Hr. destruct (ConfidenceFacts.extract_fields_in None text chunks defs rs H r Hr)
    as (n & t & d & ->).
  apply ConfidenceFacts.heuristic_record_unit.
Qed.

(** X3 witness. *)
Lemma heuristic_confidence_unit_witness :
  exists rs,
    extract_fields None "Term: one year." [] [PDict [("name", PStr "Term")]] = Ok rs /\
    forall r, In r rs -> (0 <= confidence_score r <= 1)%Q.
Proof.
  destruct (extract_fields None "Term: one year." [] [PDict [("name", PStr "Term")]])
    as [rs | e] eqn:H; [| vm_compute in H; discriminate H].
  exists rs. split; [reflexivity | exact (heuristic_confidence_unit _ _ _ _ H)].
Defined.

(** X4. For non-empty document and extraction lists, the comparison
    table has one row per distinct field name, in the order in which the
    names first occur among the extractions; each row's field type is the
    one of the first extraction with that name. *)
Theorem comparison_rows_first_seen docs exs :
  docs <> [] -> exs <> [] ->
  map Orchestrator.row_field_name (Orchestrator.generate_comparison_table docs exs) =
    TableOrderFacts.first_seen (map Orchestrator.ex_field_name exs) /\
  forall row, In row (Orchestrator.generate_comparison_table docs exs) ->
    exists pre e post, exs = (pre ++ e :: post)%list /\
      Orchestrator.ex_field_name e = Orchestrator.row_field_name row /\
      Orchestrator.row_field_type row = Orchestrator.ex_field_type e /\
      forall x, In x pre -> Orchestrator.ex_field_name x <> Orchestrator.row_field_name row.
Proof.
  intros Hd He. rewrite (TableOrderFacts.table_rows_eq docs exs Hd He).
  destruct (TableFacts.group_extractions_ok exs) as (_ & Hg & _).
  pose proof (TableOrderFacts.group_extractions_src exs) as Hs.
  split.
  - rewrite <- TableOrderFacts.group_keys_first_seen, map_map.
    apply map_ext_in. intros [n g] Hin. cbn. apply (Hg n g Hin).
  - intros row Hrow. apply in_map_iff in Hrow as [[n g] [<- Hin]].
    destruct (Hg n g Hin) as [Hname _]. destruct (Hs n g Hin) as [H _].
    cbn [Orchestrator.make_row Orchestrator.row_field_name Orchestrator.row_field_type].
    rewrite Hname. exact H.
Qed.

(** X5. In the comparison table, the cell of a document in a field's
    row summarises the last extraction for that document and field: later
    extractions overwrite earlier ones. *)
Theorem comparison_cell_last docs exs row d pre e post :
  In row (Orchestrator.generate_comparison_table docs exs) -> In d docs ->
  exs = (pre ++ e :: post)%list ->
  Orchestrator.ex_document_id e = Orchestrator.doc_id d ->
  Orchestrator.ex_field_name e = Orchestrator.row_field_name row ->
  (forall x, In x post ->
     ~ (Orchestrator.ex_document_id x = Orchestrator.doc_id d /\
        Orchestrator.ex_field_name x = Orchestrator.row_field_name row)) ->
  Orchestrator.lookup (Orchestrator.document_results row) (Orchestrator.doc_id d) =
    Some (Orchestrator.CellResult (Orchestrator.summary e)).
Proof.
  intros Hrow Hd HP Hdoc Hfield Hpost.
  assert (Hne : docs <> [] /\ exs <> []).
  { split; intros ->; [destruct Hd | cbn in Hrow; destruct docs; destruct Hrow]. }
  rewrite (TableOrderFacts.table_rows_eq docs exs (proj1 Hne) (proj2 Hne)) in Hrow.
  apply in_map_iff in Hrow as [[n g] [<- Hin]].
  destruct (TableFacts.group_extractions_ok exs) as (_ & Hg & _).
  destruct (Hg n g Hin) as [Hname Hres].
  destruct (TableOrderFacts.group_extractions_src exs n g Hin) as [_ Hsrc].
  cbn [Orchestrator.make_row Orchestrator.document_results Orchestrator.row_field_name] in *.
  rewrite Hname in Hfield, Hpost.
  rewrite TableFacts.row_cells_eq, TableFacts.row_cells_fold, TableFacts.existsb_doc_in by exact Hd.
  unfold TableFacts.cellfor.
  destruct (Orchestrator.lookup (Orchestrator.g_results g) (Orchestrator.doc_id d)) as [r |] eqn:E.
  - destruct (Hsrc _ r E) as (pre' & e' & post' & Hsplit & ->).
    assert (Hlast : TableOrderFacts.last_split
                      (TableOrderFacts.same_cell (Orchestrator.doc_id d) n) exs pre e post).
    { split; [exact HP |]. split; [split; assumption | exact Hpost]. }
    rewrite (TableOrderFacts.last_split_unique _ _ _ _ _ _ _ _ Hsplit Hlast). reflexivity.
  - exfalso. apply (proj1 (Hres _) E). exists e. split; [rewrite HP; apply in_or_app; right; left; reflexivity |].
    split; assumption.
Qed.

(** X4 witness: the fields "Term", "Party", "Term" give the rows
    "Term", "Party". *)
Lemma comparison_rows_first_seen_witness :
  map Orchestrator.row_field_name
    (Orchestrator.generate_comparison_table [w_doc]
       [w_ex "x1" "Term" "TEXT" "one year"; w_ex "x2" "Party" "ENTITY" "Acme";
        w_ex "x3" "Term" "DATE" "2024-01-01"]) = ["Term"; "Party"].
Proof.
  destruct (comparison_rows_first_seen [w_doc]
       [w_ex "x1" "Term" "TEXT" "one year"; w_ex "x2" "Party" "ENTITY" "Acme";
        w_ex "x3" "Term" "DATE" "2024-01-01"]) as [H _]; [discriminate | discriminate |].
  rewrite H. vm_compute. reflexivity.
Defined.

(** X5 witness: two extractions for the same cell; the second wins. *)
Lemma comparison_cell_last_witness :
  let exs := [w_ex "x1" "Term" "TEXT" "one year"; w_ex "x2" "Term" "TEXT" "two years"] in
  let row := hd {| Orchestrator.row_field_name := ""; Orchestrator.row_field_type := "";
                   Orchestrator.document_results := [] |}
               (Orchestrator.generate_comparison_table [w_doc] exs) in
  Orchestrator.lookup (Orchestrator.document_results row) "d1" =
    Some (Orchestrator.CellResult (Orchestrator.summary (w_ex "x2" "Term" "TEXT" "two years"))).
Proof.
  intros exs row.
  apply (comparison_cell_last [w_doc] exs row w_doc [w_ex "x1" "Term" "TEXT" "one year"]
           (w_ex "x2" "Term" "TEXT" "two years") []).
  - vm_compute. left. reflexivity.
  - left. reflexivity.
  - reflexivity.
  - reflexivity.
  - vm_compute. reflexivity.
  - intros x [].
Defined.

End Extras.

Module EvaluationExtras.
Import Orchestrator Evaluation EvaluationFacts.

(** X6. [evaluate_extraction] either finds no extraction of the project
    matching the field name and document id (an empty name or id matches
    everything) and changes nothing, or appends exactly one evaluation row:
    its AI value is the normalised value of a matching extraction, or its
    extracted value when the normalised one is falsy; its score is
    [_calculate_match_score] of the two values, lies in [0, 1], and the
    row is a match exactly when the score exceeds 0.8. *)
Theorem evaluate_extraction_outcome st p d f h :
  match evaluate_extraction st p d f h with
  | (st', ExtractionNotFound) =>
      st' = st /\
      ~ exists e, In (p, e) (st_extractions st) /\ (f = "" \/ ex_field_name e = f) /\
                  (d = "" \/ ex_document_id e = d)
  | (st', Evaluated row) =>
      st_extractions st' = st_extractions st /\
      st_evaluations st' = (st_evaluations st ++ [row])%list /\
      ev_project_id row = p /\ ev_document_id row = d /\ ev_field_name row = f /\
      ev_human_value row = h /\
      (exists e, In (p, e) (st_extractions st) /\ (f = "" \/ ex_field_name e = f) /\
                 (d = "" \/ ex_document_id e = d) /\
                 ev_ai_value row = opt_or (ex_normalized_value e) (ex_extracted_value e)) /\
      ev_match_score row = _calculate_match_score (ev_ai_value row) h /\
      (0 <= ev_match_score row <= 1)%Q /\
      (ev_normalized_match row = true <-> (8#10 < ev_match_score row)%Q)
  end.
Proof.
  unfold evaluate_extraction.
  destruct (list_extractions_by_project st p (Some f) (Some d)) as [| e rest] eqn:E.
  - split; [reflexivity |]. intros (e & Hin & Hf & Hd).
    assert (H : In e (list_extractions_by_project st p (Some f) (Some d)))
      by (apply list_extractions_in; split; [exact Hin | split; assumption]).
    rewrite E in H. destruct H.
  - assert (He : In e (list_extractions_by_project st p (Some f) (Some d)))
      by (rewrite E; left; reflexivity).
    apply list_extractions_in in He as (Hin & Hf & Hd).
    cbn [create_evaluation st_extractions st_evaluations ev_project_id ev_document_id
         ev_field_name ev_human_value ev_ai_value ev_match_score ev_normalized_match].
    split; [reflexivity |]. split; [reflexivity |].
    do 4 (split; [reflexivity |]).
    split; [exists e; split; [exact Hin | split; [exact Hf | split; [exact Hd | reflexivity]]] |].
    split; [reflexivity |]. split; [apply ScoreFacts.match_score_unit | apply above_iff].
Qed.

(** X7. In the evaluation report, the total field count is the number of
    evaluations of the project; the per-field totals and matches add up to
    the overall totals and matches; field names in the per-field results
    are distinct and are exactly the evaluated field names; every per-field
    accuracy and the overall accuracy lie in [0, 1]. *)
Theorem evaluation_report_consistent st p :
  let rp := generate_evaluation_report st p in
  let m := rp_metrics rp in
  let frs := rp_field_results rp in
  total_fields m = List.length (list_evaluations st p) /\
  list_sum (map fr_total frs) = total_fields m /\
  list_sum (map fr_matched frs) = matched_fields m /\
  NoDup (map fr_field_name frs) /\
  (forall n, In n (map fr_field_name frs) <->
             exists ev, In ev (list_evaluations st p) /\ ev_field_name ev = n) /\
  (forall r, In r frs -> fr_matched r <= fr_total r /\ (0 <= fr_accuracy r <= 1)%Q) /\
  (0 <= field_accuracy m <= 1)%Q.
Proof.
  cbv zeta. destruct (metrics_counts st p) as [Hmt Hmm].
  destruct (report_results_ok (list_evaluations st p)) as (Hnd & Ht & Hm & Hent & Hkeys).
  set (acc := fold_left report_step (list_evaluations st p) []) in *.
  unfold generate_evaluation_report. cbn [rp_metrics rp_field_results].
  fold acc.
  assert (Hfr : map snd (map (fun '(k, r) => (k, with_accuracy r)) acc) =
                map (fun kv => with_accuracy (snd kv)) acc).
  { rewrite map_map. apply map_ext. intros [k r]. reflexivity. }
  assert (Hnames : map fr_field_name (map (fun kv => with_accuracy (snd kv)) acc) = map fst acc).
  { rewrite map_map. apply map_ext_in. intros [k r] Hin. apply (Hent k r Hin). }
  rewrite Hfr. split; [exact Hmt |]. split.
  { rewrite Hmt, <- Ht, map_map. reflexivity. }
  split; [rewrite Hmm, <- Hm, map_map; reflexivity |].
  rewrite Hnames. split; [exact Hnd |]. split; [exact Hkeys |]. split.
  - intros r Hr. apply in_map_iff in Hr as ([k r0] & <- & Hin).
    destruct (Hent k r0 Hin) as [_ Hle]. cbn. split; [exact Hle |].
    apply ratio_unit_nat. exact Hle.
  - unfold get_evaluation_metrics. destruct (list_evaluations st p) as [| e0 evs];
      [split; discriminate |].
    cbn [field_accuracy]. apply ratio_unit_nat. apply filter_length_le.
Qed.

(** X8. After any sequence of [evaluate_extraction] calls starting from
    no evaluations, the project metrics have an average confidence (mean
    match score) in [0, 1] and count as matched exactly the evaluations
    whose [normalized_match] flag is set. *)
Theorem metrics_after_evaluations exs reqs p :
  let st := fold_left (fun st '(q, d, f, h) => fst (evaluate_extraction st q d f h)) reqs
              {| st_extractions := exs; st_evaluations := [] |} in
  let m := get_evaluation_metrics st p in
  (0 <= average_confidence m <= 1)%Q /\
  matched_fields m = List.length (filter ev_normalized_match (list_evaluations st p)).
Proof.
  cbv zeta.
  assert (Hinv : forall reqs st, (forall r, In r (st_evaluations st) -> row_ok r) ->
            forall r, In r (st_evaluations
              (fold_left (fun st '(q, d, f, h) => fst (evaluate_extraction st q d f h)) reqs st)) ->
            row_ok r).
  { induction reqs0 as [| [[[q d] f] h] reqs0 IH]; intros st Hst; [exact Hst |].
    cbn [fold_left]. apply IH. apply evaluate_preserves, Hst. }
  specialize (Hinv reqs {| st_extractions := exs; st_evaluations := [] |} ltac:(intros r [])).
  cbv zeta beta in Hinv.
  set (st := fold_left _ reqs _) in *.
  assert (Hp : forall r, In r (list_evaluations st p) -> row_ok r).
  { intros r Hr. apply filter_In in Hr as [Hr _]. apply Hinv, Hr. }
  split.
  - unfold get_evaluation_metrics. destruct (list_evaluations st p) as [| e0 evs] eqn:E;
      [split; discriminate |].
    cbn [average_confidence]. rewrite <- E. apply average_unit.
    intros r Hr. apply Hp. rewrite <- E. exact Hr.
  - rewrite (proj2 (metrics_counts st p)). f_equal. apply filter_ext_in.
    intros r Hr. symmetry. apply (Hp r Hr).
Qed.

End EvaluationExtras.

Module ServiceExtras.
Import PyStr FieldExtractor ExtractorFacts Services ServiceFacts ReviewFacts ReviewExamples.

(** X9. When [extract_fields_for_document] returns, it has appended one
    extraction row per extraction result, each with the given project and
    document and status EXTRACTED; it has appended one PENDING review per
    new extraction, in the same order, referring to that extraction and
    carrying its extracted value as AI value; and the document is marked
    EXTRACTED. *)
Theorem extract_fields_for_document_rows r p d defs :
  match extract_fields_for_document r p d defs with
  | Failed _ _ => True
  | Done r' stored =>
      r_extractions r' = (r_extractions r ++ stored)%list /\
      (exists doc results, get_document r d = Some doc /\
         extract_fields None (drow_content_text doc) (chunks_data (get_document_chunks r d))
           defs = Ok results /\
         Forall2 (fun x res => xrow_project_id x = p /\ xrow_document_id x = d /\
                               xrow_status x = "EXTRACTED" /\
                               xrow_extracted_value x = extracted_value res) stored results) /\
      (exists newrevs, r_reviews r' = (r_reviews r ++ newrevs)%list /\
         map rv_extraction_id newrevs = map xrow_id stored /\
         forall rv, In rv newrevs ->
           rv_status rv = "PENDING" /\ rv_project_id rv = p /\
           exists x, In x stored /\ xrow_id x = rv_extraction_id rv /\
                     rv_ai_value rv = xrow_extracted_value x) /\
      exists doc, get_document r' d = Some doc /\ drow_status doc = "EXTRACTED"
  end.
Proof.
  unfold extract_fields_for_document.
  destruct (get_document r d) as [doc |] eqn:Hdoc; [| reflexivity].
  destruct (extract_fields None (drow_content_text doc) (chunks_data (get_document_chunks r d)) defs)
    as [results | e] eqn:Hres; [| exact I].
  pose proof (store_fold p d results r []) as H.
  destruct (fold_left (store_result p d) results (r, [])) as [r1 stored].
  destruct H as (new & newcits & newrevs & Ha & Hx & Hc & Hr & Hd & Hch & Hids & Hrows & Hrevs & Hcits).
  cbn [app] in Ha. subst stored.
  cbn [update_document_status r_extractions r_reviews].
  split; [exact Hx |].
  split; [exists doc, results; split; [reflexivity | split; [exact Hres | exact Hrows]] |].
  split.
  - exists newrevs. split; [exact Hr |]. split.
    + clear - Hrevs. induction Hrevs as [| rv x revs xs (H1 & _) _ IH]; [reflexivity |].
      cbn. rewrite H1, IH. reflexivity.
    + intros rv Hin. destruct (forall2_in_l _ _ _ _ Hrevs Hin) as (x & Hx' & (H1 & H2 & H3 & H4)).
      split; [exact H2 |]. split; [exact H3 |]. exists x. split; [exact Hx' |].
      split; [symmetry; exact H1 | exact H4].
  - unfold get_document in Hdoc |- *. cbn [update_document_status r_documents]. rewrite <- Hd in Hdoc.
    exact (set_document_status_find _ d "EXTRACTED" doc Hdoc).
Qed.

(** X10. The citations stored by [extract_fields_for_document] are
    appended to the table; each belongs to the document and to one of the
    new extractions, has no [chunk_id], and carries the page number and the
    section title of one of the document's chunks, the section defaulting
    to "Main" (never empty). *)
Theorem extract_fields_for_document_citations r p d defs :
  match extract_fields_for_document r p d defs with
  | Failed r' _ => r_citations r' = r_citations r
  | Done r' stored =>
      exists newcits, r_citations r' = (r_citations r ++ newcits)%list /\
        forall c, In c newcits ->
          cit_document_id c = d /\ cit_chunk_id c = None /\
          In (cit_extraction_id c) (map xrow_id stored) /\
          exists ch, In ch (r_chunks r) /\ crow_document_id ch = d /\
            cit_page_number c = crow_page_number ch /\
            cit_section_title c = PStr (section_or_main (crow_section_title ch)) /\
            section_or_main (crow_section_title ch) <> ""
  end.
Proof.
  unfold extract_fields_for_document.
  destruct (get_document r d) as [doc |] eqn:Hdoc; [| reflexivity].
  destruct (extract_fields None (drow_content_text doc) (chunks_data (get_document_chunks r d)) defs)
    as [results | e] eqn:Hres; [| reflexivity].
  pose proof (store_fold p d results r []) as H.
  destruct (fold_left (store_result p d) results (r, [])) as [r1 stored].
  destruct H as (new & newcits & newrevs & Ha & Hx & Hc & Hr & Hd & Hch & Hids & Hrows & Hrevs & Hcits).
  cbn [app] in Ha. subst stored.
  exists newcits. cbn [update_document_status r_citations]. split; [exact Hc |].
  intros c Hin. rewrite Forall_forall in Hcits.
  destruct (Hcits c Hin) as (H1 & H2 & H3 & res & ci & Hres' & Hci & Hp & Hs).
  split; [exact H1 |]. split; [exact H2 |]. split; [exact H3 |].
  destruct (results_citations _ _ _ _ Hres res ci Hres' Hci) as (i & dd & Hi & Hp' & Hs').
  destruct (chunks_data_nth _ _ _ Hi) as (ch & Hch' & Hpg & Hsec).
  destruct (get_document_chunks_in r d ch Hch') as [Hin_r Hdoc_ch].
  exists ch. split; [exact Hin_r |]. split; [exact Hdoc_ch |].
  rewrite Hp, Hp', Hpg, Hs, Hs', Hsec. split; [reflexivity |]. split; [reflexivity |].
  apply section_or_main_nonempty.
Qed.

(** X11. For dictionary field definitions, when [extract_all_documents]
    returns, it reports as processed the number of documents of the
    project and as extracted that number times the number of field
    definitions, which is also the number of extraction rows it has
    added. *)
Theorem extract_all_documents_counts r p dicts :
  match extract_all_documents r p (map PDict dicts) with
  | Done r' (processed, total) =>
      processed = List.length (list_project_documents r p) /\
      total = processed * List.length dicts /\
      List.length (r_extractions r') = List.length (r_extractions r) + total
  | Failed _ _ => True
  end.
Proof.
  unfold extract_all_documents.
  assert (G : forall docs r0 t,
    incl (map drow_id docs) (map drow_id (r_documents r0)) ->
    match extract_loop r0 p (map PDict dicts) docs t with
    | Done r' t' => t' = t + List.length docs * List.length dicts /\
                    List.length (r_extractions r') = List.length (r_extractions r0) + (t' - t)
    | Failed _ _ => False
    end).
  { induction docs as [| doc docs IH]; intros r0 t Hincl; cbn [extract_loop].
    - cbn [List.length]. split; lia.
    - destruct (get_document r0 (drow_id doc)) as [doc0 |] eqn:Hdoc.
      2:{ apply get_document_none in Hdoc. exfalso. apply Hdoc, Hincl. left. reflexivity. }
      unfold extract_fields_for_document. rewrite Hdoc.
      rewrite extract_fields_dicts.
      pose proof (store_fold p (drow_id doc) (map (fun d0 => _extract_single_field None
                    (drow_content_text doc0) (chunks_data (get_document_chunks r0 (drow_id doc)))
                    (dict_get d0 "name" (PStr "")) (dict_get d0 "field_type" (PStr "TEXT"))
                    (dict_get d0 "description" (PStr ""))) dicts) r0 []) as Hst.
      destruct (fold_left _ _ (r0, [])) as [r1 stored].
      destruct Hst as (new & _ & _ & Ha & Hx & _ & _ & Hd & _ & _ & Hr & _ & _).
      cbn [app] in Ha. subst stored.
      pose proof (Forall2_length Hr) as Hlen. rewrite length_map in Hlen.
      specialize (IH (update_document_status r1 (drow_id doc) "EXTRACTED") (t + List.length new)).
      destruct (extract_loop _ _ _ docs _) as [r' t' |]; [| apply IH].
      + destruct IH as [IH1 IH2].
        * cbn [update_document_status r_documents]. rewrite set_document_status_ids, Hd.
          intros x Hx'. apply Hincl. right. exact Hx'.
        * cbn [update_document_status r_extractions] in IH2. rewrite Hx, length_app in IH2.
          cbn [List.length]. split; lia.
      + cbn [update_document_status r_documents]. rewrite set_document_status_ids, Hd.
        intros x Hx'. apply Hincl. right. exact Hx'. }
  specialize (G (list_project_documents r p) r 0).
  destruct (extract_loop r p (map PDict dicts) (list_project_documents r p) 0) as [r' t |].
  - destruct G as [G1 G2].
    + intros x Hx. apply in_map_iff in Hx as (doc & <- & Hin).
      apply filter_In in Hin as [Hin _]. apply in_map, Hin.
    + split; [reflexivity |]. split; lia.
  - exact I.
Qed.




(** X12. For an existing extraction and a status that is not an
    [ExtractionStatus] name, [update_extraction_review] raises KeyError and
    leaves the extraction unchanged, but when the project had no pending
    review for the extraction, the PENDING review it created before the
    status lookup stays in the table. *)
Theorem update_review_unknown_status st sv hrb r xid status mv rn rb x :
  ~ In status st -> get_extraction r xid = Some x ->
  exists r', update_extraction_review st sv hrb r xid status mv rn rb = Failed r' (KeyError status) /\
    r_extractions r' = r_extractions r /\
    r_reviews r' =
      if has_pending r (xrow_project_id x) xid then r_reviews r
      else (r_reviews r ++
            [{| rv_id := List.length (r_reviews r); rv_project_id := xrow_project_id x;
                rv_extraction_id := xid; rv_ai_value := xrow_extracted_value x;
                rv_status := "PENDING"; rv_manual_value := None;
                rv_reviewer_notes := None; rv_reviewed_by := None |}])%list.
Proof.
  intros Hst Hx. unfold update_extraction_review. rewrite Hx.
  assert (Hv : existsb (String.eqb status) st = false).
  { destruct (existsb (String.eqb status) st) eqn:E; [| reflexivity].
    apply existsb_exists in E as (s & Hs & Hs'). apply String.eqb_eq in Hs'. subst s.
    contradiction. }
  destruct (find _ (list_pending_reviews r (xrow_project_id x))) as [rv |] eqn:E.
  - destruct (find_pending_some _ _ _ _ E) as (_ & _ & Hp). rewrite Hp, Hv.
    eexists. split; [reflexivity |]. split; reflexivity.
  - apply find_pending_none in E. rewrite E. cbn [create_review_state]. rewrite Hv.
    eexists. split; [reflexivity |]. split; reflexivity.
Qed.

(** X12 witness: status "DONE" leaves one new review behind. *)
Lemma update_review_unknown_status_witness :
  exists r', update_extraction_review ex_status ex_status_value true ex_repo 0 "DONE"
               None None None = Failed r' (KeyError "DONE") /\
    r_extractions r' = r_extractions ex_repo /\ List.length (r_reviews r') = 1.
Proof.
  destruct (update_review_unknown_status ex_status ex_status_value true ex_repo 0 "DONE"
              None None None ex_row) as (r' & H1 & H2 & H3).
  - cbn. intros [H | [H | []]]; discriminate.
  - reflexivity.
  - exists r'. split; [exact H1 |]. split; [exact H2 |]. rewrite H3. reflexivity.
Defined.

(** X13. For an existing extraction, a valid status and review ids that
    are distinct and below the table size, [update_extraction_review]
    succeeds.  The returned dictionary names the extraction and carries the
    value of the new status, the manual value and the reviewer notes; the
    stored review row it describes has the new status, manual value and
    notes; the extraction gets the new status; the ids stay well formed; and
    a review row is added exactly when the project had no pending review
    for the extraction. *)
Theorem update_review_success st sv hrb r xid status mv rn rb x :
  In status st -> get_extraction r xid = Some x -> review_ids_ok r ->
  exists r' resp, update_extraction_review st sv hrb r xid status mv rn rb = Done r' resp /\
    resp_extraction_id resp = xid /\ resp_status resp = sv status /\
    resp_manual_value resp = mv /\ resp_reviewer_notes resp = rn /\
    (exists rv, In rv (r_reviews r') /\ rv_id rv = resp_id resp /\ rv_extraction_id rv = xid /\
       rv_status rv = status /\ rv_manual_value rv = mv /\ rv_reviewer_notes rv = rn) /\
    r_extractions r' = set_extraction_status (r_extractions r) xid status /\
    review_ids_ok r' /\
    map rv_extraction_id (r_reviews r') =
      (map rv_extraction_id (r_reviews r) ++
       (if has_pending r (xrow_project_id x) xid then [] else [xid]))%list.
Proof.
  apply update_review_done.
Qed.

(** X13 witness. *)
Lemma update_review_success_witness :
  exists r' resp, update_extraction_review ex_status ex_status_value true ex_repo 0 "APPROVED"
                    (Some "Acme Inc") None None = Done r' resp /\
    resp_status resp = "approved" /\ resp_manual_value resp = Some "Acme Inc".
Proof.
  destruct (update_review_success ex_status ex_status_value true ex_repo 0 "APPROVED"
              (Some "Acme Inc") None None ex_row) as (r' & resp & H1 & _ & H2 & H3 & _).
  - cbn. right. left. reflexivity.
  - reflexivity.
  - split; cbn; constructor.
  - exists r', resp. split; [exact H1 |]. split; [rewrite H2; reflexivity | exact H3].
Defined.

(** X14. Reviewing an extraction that has no review yet with a status
    other than PENDING, and then reviewing it again, leaves two review rows
    for it: the second call no longer finds a pending review and creates a
    new one. *)
Theorem update_review_twice_duplicates st sv hrb r xid s1 s2 mv1 rn1 rb1 mv2 rn2 rb2 x r1 resp1 :
  get_extraction r xid = Some x -> review_ids_ok r ->
  ~ In xid (map rv_extraction_id (r_reviews r)) ->
  In s1 st -> s1 <> "PENDING" -> In s2 st ->
  update_extraction_review st sv hrb r xid s1 mv1 rn1 rb1 = Done r1 resp1 ->
  exists r2 resp2, update_extraction_review st sv hrb r1 xid s2 mv2 rn2 rb2 = Done r2 resp2 /\
    count_occ Nat.eq_dec (map rv_extraction_id (r_reviews r2)) xid = 2.
Proof.
  intros Hx Hok Hnone Hs1 Hne Hs2 Hdone.
  destruct (update_review_done st sv hrb r xid s1 mv1 rn1 rb1 x Hs1 Hx Hok)
    as (r1' & resp1' & Heq & _ & _ & _ & _ & (rv1 & Hin1 & _ & Hid1 & Hst1 & _) & Hxs1 & Hok1 & Hm1).
  rewrite Hdone in Heq. injection Heq as <- <-.
  assert (Hp0 : has_pending r (xrow_project_id x) xid = false).
  { destruct (has_pending r (xrow_project_id x) xid) eqn:E; [| reflexivity].
    apply has_pending_in in E as (q & Hq & Hqx & _).
    exfalso. apply Hnone. rewrite <- Hqx. apply in_map, Hq. }
  rewrite Hp0 in Hm1.
  assert (Hc1 : count_occ Nat.eq_dec (map rv_extraction_id (r_reviews r1)) xid = 1).
  { rewrite Hm1, count_occ_app. apply (count_occ_not_In Nat.eq_dec) in Hnone.
    rewrite Hnone. cbn. destruct (Nat.eq_dec xid xid); [reflexivity | contradiction]. }
  assert (Hx1 : exists y, get_extraction r1 xid = Some y /\ xrow_project_id y = xrow_project_id x).
  { unfold get_extraction in Hx |- *. rewrite Hxs1.
    destruct (set_extraction_status_find _ _ s1 _ Hx) as (y & Hy & Hp & _).
    exists y. split; assumption. }
  destruct Hx1 as (y & Hy & _).
  assert (Hp1 : has_pending r1 (xrow_project_id y) xid = false).
  { destruct (has_pending r1 (xrow_project_id y) xid) eqn:E; [| reflexivity].
    apply has_pending_in in E as (q & Hq & Hqx & Hqs).
    assert (q = rv1) as ->.
    { apply (count_occ_one_unique (r_reviews r1) xid); [lia | assumption ..]. }
    congruence. }
  destruct (update_review_done st sv hrb r1 xid s2 mv2 rn2 rb2 y Hs2 Hy Hok1)
    as (r2 & resp2 & Heq2 & _ & _ & _ & _ & _ & _ & _ & Hm2).
  exists r2, resp2. split; [exact Heq2 |].
  rewrite Hm2, Hp1, count_occ_app, Hc1. cbn.
  destruct (Nat.eq_dec xid xid); [reflexivity | contradiction].
Qed.

(** X14 witness: approving the same extraction twice. *)
Lemma update_review_twice_duplicates_witness :
  exists r1 resp1 r2 resp2,
    update_extraction_review ex_status ex_status_value true ex_repo 0 "APPROVED"
      None None None = Done r1 resp1 /\
    update_extraction_review ex_status ex_status_value true r1 0 "APPROVED"
      None None None = Done r2 resp2 /\
    count_occ Nat.eq_dec (map rv_extraction_id (r_reviews r2)) 0 = 2.
Proof.
  destruct (update_extraction_review ex_status ex_status_value true ex_repo 0 "APPROVED"
              None None None) as [r1 resp1 | r1 e] eqn:E1; [| discriminate E1].
  destruct (update_review_twice_duplicates ex_status ex_status_value true ex_repo 0
              "APPROVED" "APPROVED" None None None None None None ex_row r1 resp1)
    as (r2 & resp2 & H1 & H2).
  - reflexivity.
  - split; cbn; constructor.
  - cbn. intros [].
  - cbn. right. left. reflexivity.
  - discriminate.
  - cbn. right. left. reflexivity.
  - exact E1.
  - exists r1, resp1, r2, resp2. split; [reflexivity | split; assumption].
Defined.

End ServiceExtras.
